(** * posixtimer.py: a shallow embedding of the PosixTimer wrapper

    The Python module wraps the Linux POSIX timer system calls through
    ctypes.  This file models, in the order of the source:
    - Python's binary64 floats and the int/float conversions the module
      relies on ([int(x)], [float(n)], mixed int/float arithmetic);
    - the two DurationCodec helpers [_second_nsec_to_float] and
      [_float_to_second_nsec];
    - the kernel side of timer_create / timer_settime / timer_gettime /
      timer_getoverrun / timer_delete, with errno;
    - [_error_handler], installed as ctypes [restype] of every binding;
    - the methods of [PosixTimer] in a small state-and-exception monad;
    - the SIGEV_THREAD notification path ([PosixTimer.callback_obj]) over
      an explicit heap of Python objects. *)

From Stdlib Require Import ZArith Lia QArith String List Bool.
From Stdlib Require Import Floats.SpecFloat.
From stdpp Require Import base gmap.

Open Scope Z_scope.

(* ------------------------------------------------------------------ *)
(** ** Python values and exceptions *)

(** The exceptions the module can raise. *)
Inductive exn :=
  | OSError (errnum : Z)
  | NameError (name : string)
  | AttributeError (name : string)
  | OverflowError
  | ValueError.

(** A Python computation either returns a value or raises. *)
Inductive result (A : Type) :=
  | Ok (a : A)
  | Raise (e : exn).
Arguments Ok {A} a.
Arguments Raise {A} e.

Global Instance result_ret : MRet result := fun A a => Ok a.
Global Instance result_bind : MBind result := fun A B k r =>
  match r with Ok a => k a | Raise e => Raise e end.

(* ------------------------------------------------------------------ *)
(** ** Python floats: IEEE 754 binary64 *)

Definition prec : Z := 53.
Definition emax : Z := 1024.

(** A Python [float]. *)
Definition float := spec_float.

Definition fadd : float -> float -> float := SFadd prec emax.
Definition fsub : float -> float -> float := SFsub prec emax.
Definition fmul : float -> float -> float := SFmul prec emax.
Definition fdiv : float -> float -> float := SFdiv prec emax.

(** [float(n)] for a Python int [n] (also the implicit conversion of an
    int operand in mixed int/float arithmetic, [PyLong_AsDouble]): correctly
    rounded to nearest-even; [OverflowError] when the result is not finite. *)
Definition float_of_int (n : Z) : result float :=
  match binary_normalize prec emax n 0 false with
  | S754_infinity _ | S754_nan => Raise OverflowError
  | f => Ok f
  end.

(** [int(x)] for a Python float [x]: truncation toward zero;
    [OverflowError] on an infinity and [ValueError] on a NaN. *)
Definition int_of_float (x : float) : result Z :=
  match x with
  | S754_zero _ => Ok 0
  | S754_infinity _ => Raise OverflowError
  | S754_nan => Raise ValueError
  | S754_finite s m e =>
      let a := Z.shiftl (Zpos m) e in
      Ok (if s then - a else a)
  end.

(** The literal [1e9] (exact in binary64). *)
Definition f_1e9 : float := S754_finite false 8388608000000000 (-23).

(** The literal [1e-9]: the binary64 number nearest to 10^-9,
    [0x1.12e0be826d695p-30]. *)
Definition f_1em9 : float := S754_finite false 4835703278458517 (-82).

(** [m / 2^n] rounded to the nearest integer, ties to even: the rounding
    [binary_round_aux] performs on the discarded bits. *)
Definition round_div (m n : Z) : Z :=
  let q := m / 2 ^ n in
  let r := m mod 2 ^ n in
  let h := 2 ^ (n - 1) in
  if h <? r then q + 1
  else if r =? h then (if Z.even q then q else q + 1)
  else q.

(** The float [binary_round_aux] builds from a rounded mantissa [q] at
    exponent [F] (a carry to [2^prec] moves to the next binade). *)
Definition mk_round (s : bool) (q F : Z) : float :=
  if q =? 0 then S754_zero s
  else if q <? 2 ^ prec then
    (if F <=? emax - prec then S754_finite s (Z.to_pos q) F else S754_infinity s)
  else
    (if F + 1 <=? emax - prec then S754_finite s (Z.to_pos (2 ^ (prec - 1))) (F + 1)
     else S754_infinity s).

(** A Python number: the codec is called with ints as well as floats
    ([disarm] calls [self.set(0)]). *)
Inductive pynum :=
  | PInt (n : Z)
  | PFloat (x : float).

(** [int(v)] *)
Definition py_int (v : pynum) : result Z :=
  match v with
  | PInt n => Ok n
  | PFloat x => int_of_float x
  end.

(** [v - n] for an int [n] *)
Definition py_sub_int (v : pynum) (n : Z) : result pynum :=
  match v with
  | PInt a => Ok (PInt (a - n))
  | PFloat x => y ← float_of_int n; Ok (PFloat (fsub x y))
  end.

(** [v * c] for a float [c] *)
Definition py_mul_float (v : pynum) (c : float) : result pynum :=
  match v with
  | PInt a => y ← float_of_int a; Ok (PFloat (fmul y c))
  | PFloat x => Ok (PFloat (fmul x c))
  end.

(* ------------------------------------------------------------------ *)
(** ** DurationCodec *)

(** [def _second_nsec_to_float(sec_nsec):
        return sec_nsec[0] + sec_nsec[1]*1e-9]
    Both components are Python ints. *)
Definition _second_nsec_to_float (sec_nsec : Z * Z) : result float :=
  ns ← float_of_int (snd sec_nsec);
  let scaled := fmul ns f_1em9 in
  s ← float_of_int (fst sec_nsec);
  Ok (fadd s scaled).

(** [def _float_to_second_nsec(value):
        sec = int(value)
        return (sec, int((value - sec)*1e9))] *)
Definition _float_to_second_nsec (value : pynum) : result (Z * Z) :=
  sec ← py_int value;
  d ← py_sub_int value sec;
  p ← py_mul_float d f_1e9;
  ns ← py_int p;
  Ok (sec, ns).

(** [_float_to_second_nsec(_second_nsec_to_float(d))]. *)
Definition roundtrip (d : Z * Z) : result (Z * Z) :=
  x ← _second_nsec_to_float d; _float_to_second_nsec (PFloat x).

(** A float that is not an infinity or a NaN. *)
Definition float_is_finite (x : float) : bool :=
  match x with
  | S754_zero _ | S754_finite _ _ _ => true
  | _ => false
  end.

(** The sign bit. *)
Definition float_sign (x : float) : bool :=
  match x with
  | S754_zero s | S754_infinity s | S754_finite s _ _ => s
  | S754_nan => false
  end.

(** The DurationCodec as the specification words it, for comparison with
    the two functions above.  [trunc_value x] is the truncation toward
    zero of the exact value [m * 2^e] of a finite float. *)
Definition trunc_value (x : float) : Z :=
  match x with
  | S754_finite s m e =>
      Z.quot ((if s then - Zpos m else Zpos m) * 2 ^ Z.max e 0) (2 ^ Z.max (- e) 0)
  | _ => 0
  end.

(** [toFloatSeconds (s, ns) = s + ns * 1e-9], each operation in binary64. *)
Definition to_float_seconds_spec (d : Z * Z) : float :=
  fadd (binary_normalize prec emax (fst d) 0 false)
       (fmul (binary_normalize prec emax (snd d) 0 false) f_1em9).

(** [fromFloatSeconds x = (trunc x, trunc ((x - trunc x) * 1e9))], the
    subtraction and the product in binary64. *)
Definition from_float_seconds_spec (x : float) : Z * Z :=
  let sec := trunc_value x in
  (sec, trunc_value (fmul (fsub x (binary_normalize prec emax sec 0 false)) f_1e9)).

(** The exact value of a float in units of [2^-2200] (the smallest
    subnormal is [2^-1074]), so that sums and products of values are
    exact integers; [0] for an infinity or a NaN. *)
Definition fval (x : float) : Z :=
  match x with
  | S754_finite s m e => cond_Zopp s (Zpos m * 2 ^ (e + 2200))
  | _ => 0
  end.

(** A float that is finite and has a normalised-range mantissa and
    exponent, as the rounding functions produce. *)
Definition fine (x : float) : Prop :=
  match x with
  | S754_zero _ => True
  | S754_finite _ m e => -1074 <= e /\ Zpos m < 2 ^ 53
  | _ => False
  end.

(* ------------------------------------------------------------------ *)
(** ** ctypes integer conversions *)

(** Storing a Python int into a [c_long] field or argument keeps the low
    64 bits (ctypes does no overflow check). *)
Definition c_long (z : Z) : Z :=
  let m := z mod 2 ^ 64 in if 2 ^ 63 <=? m then m - 2 ^ 64 else m.

(** Same for [c_int32]. *)
Definition c_int32 (z : Z) : Z :=
  let m := z mod 2 ^ 32 in if 2 ^ 31 <=? m then m - 2 ^ 32 else m.

(* ------------------------------------------------------------------ *)
(** ** The kernel side of the POSIX timer calls *)

Definition EPERM : Z := 1.
Definition EAGAIN : Z := 11.
Definition EINVAL : Z := 22.
Definition EOPNOTSUPP : Z := 95.

Definition NSEC_PER_SEC : Z := 1000000000.

(** [struct timespec] and [struct itimerspec] as the ctypes structures
    [_Struct_timespec] and [_Struct_itimerspec]. *)
Record timespec := { tv_sec : Z; tv_nsec : Z }.
Record itimerspec := { it_interval : timespec; it_value : timespec }.

Definition zero_timespec : timespec := {| tv_sec := 0; tv_nsec := 0 |}.
Definition zero_itimerspec : itimerspec :=
  {| it_interval := zero_timespec; it_value := zero_timespec |}.

(** [timespec64_valid] *)
Definition timespec_valid (ts : timespec) : bool :=
  (0 <=? tv_sec ts) && (0 <=? tv_nsec ts) && (tv_nsec ts <? NSEC_PER_SEC).

Definition ns_to_timespec (n : Z) : timespec :=
  {| tv_sec := n / NSEC_PER_SEC; tv_nsec := n mod NSEC_PER_SEC |}.

(** One kernel timer: the time left to the next expiration ([0] when
    disarmed) and the reload interval, in nanoseconds, and the
    [sigev_value.sival_ptr] given at creation. *)
Record ktimer := {
  kt_clock : Z;
  kt_sival : Z;
  kt_value : Z;
  kt_interval : Z;
  kt_overrun : Z }.

(** The process-visible kernel state: the timer table, keyed by the
    [timer_t] handles glibc returns, the address of glibc's next
    [struct timer], the per-process timer limit, the reading of the clocks at the current call (the model
    does not let time pass between calls; an expiration is the event
    [kernel_expire]), whether the process holds CAP_WAKE_ALARM, whether an
    RTC device backs the alarm clocks, the CPU-clock ids (negative) that
    name an existing process or thread with a valid clock type, the expirations handed to
    SIGEV_THREAD notification threads that have not run yet (their
    [sival_ptr]), and [errno]. *)
Record kernel := {
  k_timers : gmap Z ktimer;
  k_next : Z;
  k_max : nat;
  k_now : Z;
  k_cap_wake_alarm : bool;
  k_has_rtc : bool;
  k_cpu_clocks : gset Z;
  k_pending : list Z;
  k_errno : Z }.

Definition set_timers (k : kernel) (t : gmap Z ktimer) : kernel :=
  {| k_timers := t; k_next := k_next k; k_max := k_max k; k_now := k_now k;
     k_cap_wake_alarm := k_cap_wake_alarm k; k_has_rtc := k_has_rtc k;
     k_cpu_clocks := k_cpu_clocks k; k_pending := k_pending k;
     k_errno := k_errno k |}.
Definition set_errno (k : kernel) (e : Z) : kernel :=
  {| k_timers := k_timers k; k_next := k_next k; k_max := k_max k; k_now := k_now k;
     k_cap_wake_alarm := k_cap_wake_alarm k; k_has_rtc := k_has_rtc k;
     k_cpu_clocks := k_cpu_clocks k; k_pending := k_pending k;
     k_errno := e |}.
Definition set_pending (k : kernel) (p : list Z) : kernel :=
  {| k_timers := k_timers k; k_next := k_next k; k_max := k_max k; k_now := k_now k;
     k_cap_wake_alarm := k_cap_wake_alarm k; k_has_rtc := k_has_rtc k;
     k_cpu_clocks := k_cpu_clocks k; k_pending := p;
     k_errno := k_errno k |}.

(** A failing system call: [-1] and [errno] set. *)
Definition sys_fail {X} (k : kernel) (e : Z) (out : X) : kernel * (Z * X) :=
  (set_errno k e, (-1, out)).

(** What [clockid_to_kclock] finds for a clock id, as far as timers go:
    no clock ([NULL]), a clock without [timer_create] (MONOTONIC_RAW, the
    COARSE clocks, dynamic posix clocks [(c & 7) == 3]), a clock whose
    [timer_create] cannot fail (REALTIME, MONOTONIC, BOOTTIME, TAI, and
    PROCESS/THREAD_CPUTIME_ID, which name the caller), a CPU clock given
    by a negative id naming some task, or an alarm clock (REALTIME_ALARM,
    BOOTTIME_ALARM). *)
Inductive kclock := KNone | KNoTimer | KCommon | KCpu | KAlarm.

Definition clockid_to_kclock (c : Z) : kclock :=
  if c <? 0 then (if Z.land c 7 =? 3 then KNoTimer else KCpu)
  else if (c =? 0) || (c =? 1) || (c =? 2) || (c =? 3) || (c =? 7) || (c =? 11) then KCommon
  else if (c =? 4) || (c =? 5) || (c =? 6) then KNoTimer
  else if (c =? 8) || (c =? 9) then KAlarm
  else KNone.

(** glibc's [timer_to_timerid]: the [timer_t] of a SIGEV_THREAD timer is
    [INTPTR_MIN | (uintptr_t) ptr >> 1] for the [struct timer] glibc
    mallocs for it, which [c_void_p] reads back as an unsigned 64-bit
    value; glibc maps it back to the kernel's timer id on every call. *)
Definition timer_to_timerid (ptr : Z) : Z := Z.lor (2 ^ 63) (Z.shiftr ptr 1).

(** The new timer of a successful [timer_create]: its [struct timer] is at
    [k_next] (the next allocation is modelled 96 bytes further on) and the
    table is keyed by the handle the caller receives. *)
Definition new_timer (k : kernel) (clockid sival : Z) : kernel * (Z * option Z) :=
  let id := timer_to_timerid (k_next k) in
  let t := {| kt_clock := clockid; kt_sival := sival; kt_value := 0;
              kt_interval := 0; kt_overrun := 0 |} in
  ({| k_timers := <[id := t]> (k_timers k); k_next := k_next k + 96; k_max := k_max k;
      k_now := k_now k; k_cap_wake_alarm := k_cap_wake_alarm k;
      k_has_rtc := k_has_rtc k; k_cpu_clocks := k_cpu_clocks k;
      k_pending := k_pending k; k_errno := k_errno k |}, (0, Some id)).

(** [timer_create(clockid, &sev, &timerid)] with a SIGEV_THREAD [sev]
    carrying [sival]; the [option Z] is what is written to [timerid].  As
    in [do_timer_create]: an unknown clock is [EINVAL] and a clock without
    timers [EOPNOTSUPP]; then the timer id is allocated ([EAGAIN] when the
    table is full); then the clock's own [timer_create] runs: a CPU clock
    of a task that does not exist is [EINVAL], and [alarm_timer_create]
    checks for an RTC ([EOPNOTSUPP]) before CAP_WAKE_ALARM ([EPERM]). *)
Definition sys_timer_create (clockid sival : Z) (k : kernel) : kernel * (Z * option Z) :=
  match clockid_to_kclock clockid with
  | KNone => sys_fail k EINVAL None
  | KNoTimer => sys_fail k EOPNOTSUPP None
  | kc =>
      if (k_max k <=? size (k_timers k))%nat then sys_fail k EAGAIN None
      else match kc with
           | KCpu =>
               if bool_decide (clockid ∈ k_cpu_clocks k) then new_timer k clockid sival
               else sys_fail k EINVAL None
           | KAlarm =>
               if negb (k_has_rtc k) then sys_fail k EOPNOTSUPP None
               else if negb (k_cap_wake_alarm k) then sys_fail k EPERM None
               else new_timer k clockid sival
           | _ => new_timer k clockid sival
           end
  end.

(** [timer_delete(timerid)].  Notifications already handed to a
    notification thread are not withdrawn. *)
Definition sys_timer_delete (id : Z) (k : kernel) : kernel * (Z * unit) :=
  match k_timers k !! id with
  | None => sys_fail k EINVAL tt
  | Some _ => (set_timers k (delete id (k_timers k)), (0, tt))
  end.

(** [common_timer_get]: the setting reported to [timer_gettime] and as
    [old_value] of [timer_settime]. *)
Definition report (t : ktimer) : itimerspec :=
  {| it_interval := ns_to_timespec (kt_interval t);
     it_value := ns_to_timespec (kt_value t) |}.

Definition TIMER_ABSTIME : Z := 1.

(** A timer with a new time to expiration and interval, as
    [common_timer_set] leaves it (the overrun count is cleared). *)
Definition ktimer_with (t : ktimer) (value interval : Z) : ktimer :=
  {| kt_clock := kt_clock t; kt_sival := kt_sival t; kt_value := value;
     kt_interval := interval; kt_overrun := 0 |}.

Definition KTIME_MAX : Z := 2 ^ 63 - 1.
Definition KTIME_SEC_MAX : Z := KTIME_MAX / NSEC_PER_SEC.

(** [timespec64_to_ktime]: saturates at [KTIME_MAX]. *)
Definition timespec64_to_ktime (ts : timespec) : Z :=
  if KTIME_SEC_MAX <=? tv_sec ts then KTIME_MAX else tv_sec ts * NSEC_PER_SEC + tv_nsec ts.

(** [ktime_add_safe] on non-negative times: saturates at [KTIME_MAX]. *)
Definition ktime_add_safe (a b : Z) : Z := Z.min (a + b) KTIME_MAX.

(** [timer_settime(timerid, flags, &new, &old)]: the previous setting is
    written to [old]; a zero [it_value] disarms the timer and clears its
    interval; a relative value is added to the clock reading (saturating),
    and the time left is the expiry minus the reading; an absolute expiry
    already in the past expires at once. *)
Definition sys_timer_settime (id flags : Z) (nv : itimerspec) (k : kernel)
    : kernel * (Z * itimerspec) :=
  match k_timers k !! id with
  | None => sys_fail k EINVAL zero_itimerspec
  | Some t =>
      if negb (timespec_valid (it_interval nv) && timespec_valid (it_value nv))
      then sys_fail k EINVAL zero_itimerspec
      else
        let old := report t in
        let v := timespec64_to_ktime (it_value nv) in
        let iv := timespec64_to_ktime (it_interval nv) in
        let upd := ktimer_with t in
        if (tv_sec (it_value nv) =? 0) && (tv_nsec (it_value nv) =? 0) then
          (set_timers k (<[id := upd 0 0]> (k_timers k)), (0, old))
        else if Z.land flags TIMER_ABSTIME =? 0 then
          (set_timers k (<[id := upd (ktime_add_safe (k_now k) v - k_now k) iv]> (k_timers k)),
           (0, old))
        else if 0 <? v - k_now k then
          (set_timers k (<[id := upd (v - k_now k) iv]> (k_timers k)), (0, old))
        else
          let k' := set_pending k (k_pending k ++ [kt_sival t]) in
          (set_timers k' (<[id := upd iv iv]> (k_timers k)), (0, old))
  end.

(** [timer_gettime(timerid, &cur)] *)
Definition sys_timer_gettime (id : Z) (k : kernel) : kernel * (Z * itimerspec) :=
  match k_timers k !! id with
  | None => sys_fail k EINVAL zero_itimerspec
  | Some t => (k, (0, report t))
  end.

(** [timer_getoverrun(timerid)] *)
Definition sys_timer_getoverrun (id : Z) (k : kernel) : kernel * (Z * unit) :=
  match k_timers k !! id with
  | None => sys_fail k EINVAL tt
  | Some t => (k, (kt_overrun t, tt))
  end.

(** An expiration of timer [id] as time passes: a SIGEV_THREAD
    notification carrying [sival_ptr] is queued and the timer reloads. *)
Definition kernel_expire (id : Z) (k : kernel) : kernel :=
  match k_timers k !! id with
  | Some t =>
      if kt_value t =? 0 then k
      else
        let t' := {| kt_clock := kt_clock t; kt_sival := kt_sival t;
                     kt_value := kt_interval t; kt_interval := kt_interval t;
                     kt_overrun := kt_overrun t |} in
        set_timers (set_pending k (k_pending k ++ [kt_sival t])) (<[id := t']> (k_timers k))
  | None => k
  end.

(* ------------------------------------------------------------------ *)
(** ** Python objects and the interpreter state *)

(** A [PosixTimer] instance: its [timerid] attribute, [None] while
    [__init__] has not assigned it. *)
Record PosixTimer := { timerid : option Z }.

(** The state a method runs in: the kernel and the heap of live
    [PosixTimer] objects by address; [w_log] records, newest first, the
    addresses whose [callback] method has been run. *)
Record world := {
  w_kern : kernel;
  w_heap : gmap Z PosixTimer;
  w_log : list Z }.

Definition with_kern (w : world) (k : kernel) : world :=
  {| w_kern := k; w_heap := w_heap w; w_log := w_log w |}.
Definition with_heap (w : world) (h : gmap Z PosixTimer) : world :=
  {| w_kern := w_kern w; w_heap := h; w_log := w_log w |}.

(** Python code: a state transformer that returns or raises. *)
Definition PyM (A : Type) : Type := world -> world * result A.

Global Instance PyM_ret : MRet PyM := fun A a w => (w, Ok a).
Global Instance PyM_bind : MBind PyM := fun A B k m w =>
  match m w with
  | (w', Ok a) => k a w'
  | (w', Raise e) => (w', Raise e)
  end.

Definition raise {A} (e : exn) : PyM A := fun w => (w, Raise e).
Definition lift {A} (r : result A) : PyM A := fun w => (w, r).

(** Names bound at module level in posixtimer.py by its [import]s. *)
Definition module_imports : list string := ["ctypes"; "errno"; "sys"]%string.

(** Loading a global name of the module. *)
Definition load_global (name : string) : PyM unit :=
  if existsb (String.eqb name) module_imports then mret tt else raise (NameError name).

(** [def _error_handler(value):
        if value == -1:
            err = ctypes.get_errno()
            raise OSError(err, os.strerror(err))
        return value] *)
Definition _error_handler (value : Z) : PyM Z :=
  if value =? -1 then
    fun w =>
      let err := k_errno (w_kern w) in
      (_ ← load_global "os"; raise (OSError err)) w
  else mret value.

(** A ctypes call of a [_librt] function whose [restype] is
    [_error_handler]; [X] is what the call writes through its pointer
    arguments. *)
Definition librt_call {X} (c : kernel -> kernel * (Z * X)) : PyM (Z * X) :=
  fun w =>
    let '(k', (v, out)) := c (w_kern w) in
    (r ← _error_handler v; mret (r, out)) (with_kern w k').

(** The attribute [self.timerid]; [AttributeError] while it is unset. *)
Definition get_timerid (self : Z) : PyM Z := fun w =>
  match w_heap w !! self with
  | Some {| timerid := Some t |} => (w, Ok t)
  | _ => (w, Raise (AttributeError "timerid"))
  end.

Definition set_timerid (self : Z) (v : Z) : PyM unit := fun w =>
  (with_heap w (<[self := {| timerid := Some v |}]> (w_heap w)), Ok tt).

(** [def __init__(self, clockid):
        self.timerid = ctypes.c_void_p(0)
        ev = _Struct_sigevent()
        ... ev.sigev_value.sival_ptr = <address of self> ...
        ev.sigev_notify = _SIGEV_THREAD
        _librt.timer_create(clockid, ev, ctypes.byref(self.timerid))]
    [self] is the object's address; [timer_create] writes the new handle
    into [self.timerid] when it succeeds. *)
Definition PosixTimer___init__ (self : Z) (clockid : Z) : PyM unit :=
  _ ← set_timerid self 0;
  (fun w =>
    let '(k', (v, out)) := sys_timer_create (c_int32 clockid) self (w_kern w) in
    let w1 := with_kern w k' in
    let w2 := match out with
              | Some id => with_heap w1 (<[self := {| timerid := Some id |}]> (w_heap w1))
              | None => w1
              end in
    (_ ← _error_handler v; mret tt) w2) : PyM unit.

(** [def __del__(self):
        timerid = getattr(self, "timerid", ctypes.c_void_p(0))
        if timerid:
            _librt.timer_delete(timerid)] *)
Definition PosixTimer___del__ (self : Z) : PyM unit := fun w =>
  let tid := match w_heap w !! self with
             | Some {| timerid := Some t |} => t
             | _ => 0
             end in
  if negb (tid =? 0) then (_ ← librt_call (sys_timer_delete tid); mret tt) w
  else (w, Ok tt).

Definition pairs_of (r : itimerspec) : (Z * Z) * (Z * Z) :=
  ((tv_sec (it_value r), tv_nsec (it_value r)),
   (tv_sec (it_interval r), tv_nsec (it_interval r))).

(** [def set_precise(self, value_sec_nsec, interval_sec_nsec = (0,0), flags = 0)]:
    the four fields of [setval] are [c_long]s, [flags] a [c_int32]; the
    previous setting comes back in [retval]. *)
Definition mk_setval (value_sec_nsec interval_sec_nsec : Z * Z) : itimerspec :=
  let '(value_sec, value_nsec) := value_sec_nsec in
  let '(interval_sec, interval_nsec) := interval_sec_nsec in
  {| it_value := {| tv_sec := c_long value_sec; tv_nsec := c_long value_nsec |};
     it_interval := {| tv_sec := c_long interval_sec; tv_nsec := c_long interval_nsec |} |}.

Definition set_precise (self : Z) (value_sec_nsec interval_sec_nsec : Z * Z) (flags : Z)
    : PyM ((Z * Z) * (Z * Z)) :=
  let setval := mk_setval value_sec_nsec interval_sec_nsec in
  tid ← get_timerid self;
  '(_, retval) ← librt_call (sys_timer_settime tid (c_int32 flags) setval);
  mret (pairs_of retval).

(** [def set(self, value, interval = 0, flags = 0)] *)
Definition set (self : Z) (value interval : pynum) (flags : Z) : PyM (float * float) :=
  v ← lift (_float_to_second_nsec value);
  i ← lift (_float_to_second_nsec interval);
  '(retvalue, retinterval) ← set_precise self v i flags;
  a ← lift (_second_nsec_to_float retvalue);
  b ← lift (_second_nsec_to_float retinterval);
  mret (a, b).

(** [def get_precise(self)] *)
Definition get_precise (self : Z) : PyM ((Z * Z) * (Z * Z)) :=
  tid ← get_timerid self;
  '(_, retval) ← librt_call (sys_timer_gettime tid);
  mret (pairs_of retval).

(** [def get(self)] *)
Definition get (self : Z) : PyM (float * float) :=
  '(retvalue, retinterval) ← get_precise self;
  a ← lift (_second_nsec_to_float retvalue);
  b ← lift (_second_nsec_to_float retinterval);
  mret (a, b).

(** [def getoverrun(self)] *)
Definition getoverrun (self : Z) : PyM Z :=
  tid ← get_timerid self;
  '(n, _) ← librt_call (sys_timer_getoverrun tid);
  mret n.

(** [def disarm_precise(self): return self.set_precise((0,0))] *)
Definition disarm_precise (self : Z) : PyM ((Z * Z) * (Z * Z)) :=
  set_precise self (0, 0) (0, 0) 0.

(** [def disarm(self): return self.set(0)] *)
Definition disarm (self : Z) : PyM (float * float) :=
  set self (PInt 0) (PInt 0) 0.

(* ------------------------------------------------------------------ *)
(** ** Construction, finalization and the SIGEV_THREAD notification path *)

(** [PosixTimer(clockid)]: the object is allocated at [self] without
    attributes, then [__init__] runs. *)
Definition construct (self clockid : Z) : PyM unit :=
  (fun w => (with_heap w (<[self := {| timerid := None |}]> (w_heap w)), Ok tt)) ≫=
  fun _ => PosixTimer___init__ self clockid.

(** Finalization by the runtime: [__del__] runs (an exception it raises is
    reported and ignored), then the object's memory is released. *)
Definition finalize (self : Z) (w : world) : world :=
  let w' := fst (PosixTimer___del__ self w) in
  with_heap w' (delete self (w_heap w')).

(** Outcome of running the notification function on a token. *)
Inductive dispatch :=
  | Dispatched (addr : Z)
  | Undefined (addr : Z).

(** [callback_obj = _sigev_notify_function(lambda sigval_value:
        ctypes.cast(sigval_value.sival_ptr, ctypes.py_object).value.callback())]
    The token is read as the address of a Python object and its
    [callback] method is run; an address with no live object behind it
    is a dereference of released memory ([Undefined]). *)
Definition callback_obj (sival_ptr : Z) (w : world) : world * dispatch :=
  match w_heap w !! sival_ptr with
  | Some _ =>
      ({| w_kern := w_kern w; w_heap := w_heap w; w_log := sival_ptr :: w_log w |},
       Dispatched sival_ptr)
  | None => (w, Undefined sival_ptr)
  end.

(** What can happen concurrently with the owning thread: an expiration,
    the finalization of an object, and a notification thread running. *)
Inductive event :=
  | Expire (id : Z)
  | Finalize (addr : Z)
  | Deliver.

Definition step (w : world) (ev : event) : world * option dispatch :=
  match ev with
  | Expire id => (with_kern w (kernel_expire id (w_kern w)), None)
  | Finalize a => (finalize a w, None)
  | Deliver =>
      match k_pending (w_kern w) with
      | [] => (w, None)
      | p :: rest => let '(w', d) := callback_obj p (with_kern w (set_pending (w_kern w) rest)) in
                     (w', Some d)
      end
  end.

Fixpoint run (w : world) (evs : list event) : world * list dispatch :=
  match evs with
  | [] => (w, [])
  | ev :: evs' =>
      let '(w1, d) := step w ev in
      let '(w2, ds) := run w1 evs' in
      (w2, match d with Some x => x :: ds | None => ds end)
  end.

(** A fresh process: no timers; glibc's first [struct timer] at
    [0x5555555592a0]. *)
Definition kernel0 : kernel :=
  {| k_timers := ∅; k_next := 93824992252576; k_max := 32; k_now := 0;
     k_cap_wake_alarm := false; k_has_rtc := true; k_cpu_clocks := ∅;
     k_pending := []; k_errno := 0 |}.
Definition world0 : world := {| w_kern := kernel0; w_heap := ∅; w_log := [] |}.

Definition CLOCK_MONOTONIC : Z := 1.

(** Scenario used by the examples: one timer object at address 4096 on
    CLOCK_MONOTONIC in a fresh process (its handle is [scenario_handle]),
    then armed for 5 s. *)
Definition scenario_handle : Z := timer_to_timerid 93824992252576.

Definition timer_world : world := fst (construct 4096 CLOCK_MONOTONIC world0).
Definition armed_world : world := fst (set_precise 4096 (5, 0) (0, 0) 0 timer_world).

(** The scenario's kernel timer, fresh and armed. *)
Definition timer_kt : ktimer :=
  {| kt_clock := 1; kt_sival := 4096; kt_value := 0; kt_interval := 0; kt_overrun := 0 |}.
Definition armed_kt : ktimer :=
  {| kt_clock := 1; kt_sival := 4096; kt_value := 5000000000; kt_interval := 0;
     kt_overrun := 0 |}.

(* ================================================================== *)
(** * Properties *)

Lemma bind_ok {A B} (m : PyM A) (k : A -> PyM B) (w w' : world) (a : A) :
  m w = (w', Ok a) -> (m ≫= k) w = k a w'.
Proof. intros H. unfold mbind, PyM_bind. rewrite H. reflexivity. Qed.

Lemma bind_raise {A B} (m : PyM A) (k : A -> PyM B) (w w' : world) (e : exn) :
  m w = (w', Raise e) -> (m ≫= k) w = (w', Raise e).
Proof. intros H. unfold mbind, PyM_bind. rewrite H. reflexivity. Qed.

Lemma error_handler_ok (v : Z) (w : world) : v <> -1 -> _error_handler v w = (w, Ok v).
Proof. intros Hv. unfold _error_handler. destruct (Z.eqb_spec v (-1)); [congruence | reflexivity]. Qed.

Lemma librt_call_ok {X} (c : kernel -> kernel * (Z * X)) (w : world) k' v out :
  c (w_kern w) = (k', (v, out)) -> v <> -1 ->
  librt_call c w = (with_kern w k', Ok (v, out)).
Proof.
  intros Hc Hv. unfold librt_call. rewrite Hc.
  erewrite bind_ok; [reflexivity | apply error_handler_ok; exact Hv].
Qed.

Lemma librt_call_fail {X} (c : kernel -> kernel * (Z * X)) (w : world) k' out :
  c (w_kern w) = (k', (-1, out)) ->
  librt_call c w = (with_kern w k', Raise (NameError "os")).
Proof. intros Hc. unfold librt_call. rewrite Hc. reflexivity. Qed.

(** Deleting a handle through [__del__] leaves the heap and log alone and
    removes the handle from the kernel's table, whether or not it was
    there. *)
Lemma del_effect (w : world) (a tid : Z) :
  w_heap w !! a = Some {| timerid := Some tid |} -> tid <> 0 ->
  let w' := fst (PosixTimer___del__ a w) in
  w_heap w' = w_heap w /\ w_log w' = w_log w /\ k_timers (w_kern w') !! tid = None.
Proof.
  intros Hh Hz. unfold PosixTimer___del__. rewrite Hh.
  destruct (Z.eqb_spec tid 0) as [E|_]; [contradiction|]. simpl.
  destruct (k_timers (w_kern w) !! tid) eqn:Ht.
  - rewrite (bind_ok _ _ w (with_kern w (set_timers (w_kern w) (delete tid (k_timers (w_kern w)))))
               (0, tt)).
    + simpl. repeat split. apply lookup_delete_eq.
    + eapply (librt_call_ok _ _ _ _ tt); [unfold sys_timer_delete; rewrite Ht; reflexivity | lia].
  - rewrite (bind_raise _ _ w (with_kern w (set_errno (w_kern w) EINVAL)) (NameError "os")).
    + simpl. repeat split. exact Ht.
    + eapply (librt_call_fail _ _ _ tt). unfold sys_timer_delete. rewrite Ht. reflexivity.
Qed.

(** C1 *)
(** C1 (amended). The notification function treats the token as the raw
    address of the object, with no table and no liveness check: while an
    object lives at that address its callback is run; once the object has
    been finalized, its kernel timer is gone (an expiration queues nothing
    more), but a notification already queued for it dereferences the
    released address ([Undefined]) instead of being a no-op. *)
Theorem callback_obj_raw_address (w : world) (a tid : Z) :
  w_heap w !! a = Some {| timerid := Some tid |} -> tid <> 0 ->
  snd (callback_obj a w) = Dispatched a /\
  (let w' := finalize a w in
   w_heap w' !! a = None /\
   k_timers (w_kern w') !! tid = None /\
   kernel_expire tid (w_kern w') = w_kern w' /\
   callback_obj a w' = (w', Undefined a)).
Proof.
  intros Hh Hz. split.
  - unfold callback_obj. rewrite Hh. reflexivity.
  - destruct (del_effect w a tid Hh Hz) as (_ & _ & Ht).
    unfold finalize. simpl.
    assert (Hd : delete a (w_heap (fst (PosixTimer___del__ a w))) !! a = None)
      by apply lookup_delete_eq.
    repeat split.
    + exact Hd.
    + exact Ht.
    + unfold kernel_expire. simpl. rewrite Ht. reflexivity.
    + unfold callback_obj. simpl. rewrite Hd. reflexivity.
Qed.

Lemma callback_obj_raw_address_witness :
  (w_heap timer_world !! 4096 = Some {| timerid := Some scenario_handle |} /\ scenario_handle <> 0) /\
  snd (callback_obj 4096 timer_world) = Dispatched 4096.
Proof.
  split; [split; [vm_compute; reflexivity | vm_compute; discriminate] |].
  apply (callback_obj_raw_address timer_world 4096 scenario_handle); [vm_compute; reflexivity | vm_compute; discriminate].
Defined.

(** C1 counterexample. A timer armed for 5 s expires, the object is then
    finalized before the notification thread runs: the notification
    reaches [callback_obj] with the address of the released object. *)
Lemma callback_obj_after_finalize_counterexample :
  snd (run (fst (set_precise 4096 (5, 0) (0, 0) 0 (fst (construct 4096 CLOCK_MONOTONIC world0))))
        [Expire scenario_handle; Finalize 4096; Deliver]) = [Undefined 4096].
Proof. vm_compute. reflexivity. Qed.


(** C2 (code_bug). Every binding has [_error_handler] as [restype]; on a
    [-1] it evaluates [os.strerror(err)], but posixtimer.py never imports
    [os], so the failure surfaces as [NameError('os')], which carries no
    error code, instead of [OSError(err, ...)].  Example: [set_precise]
    with a nanosecond field of 10^9 on a live timer. *)
Theorem error_handler_raises_NameError (w : world) :
  _error_handler (-1) w = (w, Raise (NameError "os")) /\
  snd (set_precise 4096 (0, 1000000000) (0, 0) 0 timer_world) = Raise (NameError "os").
Proof. split; [reflexivity | vm_compute; reflexivity]. Qed.

(** C3 (amended). [__del__] on an object whose handle is live deletes the
    kernel timer and returns normally, but it does not clear
    [self.timerid]: calling it a second time repeats [timer_delete] on the
    released handle, which fails, and the call raises. *)
Theorem del_twice_raises (w : world) (a tid : Z) (kt : ktimer) :
  w_heap w !! a = Some {| timerid := Some tid |} -> tid <> 0 ->
  k_timers (w_kern w) !! tid = Some kt ->
  let '(w1, r1) := PosixTimer___del__ a w in
  r1 = Ok tt /\ k_timers (w_kern w1) !! tid = None /\
  w_heap w1 !! a = Some {| timerid := Some tid |} /\
  exists e, snd (PosixTimer___del__ a w1) = Raise e.
Proof.
  intros Hh Hz Ht. unfold PosixTimer___del__ at 1. rewrite Hh.
  destruct (Z.eqb_spec tid 0) as [E|_]; [contradiction|]. simpl.
  erewrite bind_ok; [| eapply (librt_call_ok _ _ _ _ tt);
                       [unfold sys_timer_delete; rewrite Ht; reflexivity | lia]].
  simpl. split; [reflexivity|]. split; [apply lookup_delete_eq|]. split; [exact Hh|].
  unfold PosixTimer___del__. simpl. rewrite Hh.
  destruct (Z.eqb_spec tid 0) as [E|_]; [contradiction|]. simpl.
  eexists. erewrite bind_raise; [reflexivity|].
  eapply (librt_call_fail _ _ _ tt). unfold sys_timer_delete. simpl.
  rewrite lookup_delete_eq. reflexivity.
Qed.

Lemma del_twice_raises_witness :
  (w_heap timer_world !! 4096 = Some {| timerid := Some scenario_handle |} /\ scenario_handle <> 0 /\
   k_timers (w_kern timer_world) !! scenario_handle =
     Some {| kt_clock := 1; kt_sival := 4096; kt_value := 0; kt_interval := 0;
             kt_overrun := 0 |}) /\
  (let '(w1, r1) := PosixTimer___del__ 4096 timer_world in
   r1 = Ok tt /\ k_timers (w_kern w1) !! scenario_handle = None /\
   w_heap w1 !! 4096 = Some {| timerid := Some scenario_handle |} /\
   exists e, snd (PosixTimer___del__ 4096 w1) = Raise e).
Proof.
  split; [split; [vm_compute; reflexivity | split; [vm_compute; discriminate | vm_compute; reflexivity]] |].
  apply (del_twice_raises timer_world 4096 scenario_handle
           {| kt_clock := 1; kt_sival := 4096; kt_value := 0; kt_interval := 0;
              kt_overrun := 0 |});
    [vm_compute; reflexivity | vm_compute; discriminate | vm_compute; reflexivity].
Defined.

(** C3 counterexample: finalizing the scenario's timer twice. *)
Lemma del_twice_counterexample :
  snd (PosixTimer___del__ 4096 (fst (PosixTimer___del__ 4096 timer_world)))
  = Raise (NameError "os").
Proof. vm_compute. reflexivity. Qed.

Lemma settime_ok (id flags : Z) (nv : itimerspec) (k : kernel) (t : ktimer) :
  k_timers k !! id = Some t ->
  timespec_valid (it_interval nv) && timespec_valid (it_value nv) = true ->
  exists k', sys_timer_settime id flags nv k = (k', (0, report t)).
Proof.
  intros Ht Hv. unfold sys_timer_settime. rewrite Ht, Hv. cbn [negb].
  repeat match goal with |- context [if ?c then _ else _] => destruct c end;
    eexists; reflexivity.
Qed.

Lemma settime_invalid (id flags : Z) (nv : itimerspec) (k : kernel) (t : ktimer) :
  k_timers k !! id = Some t ->
  timespec_valid (it_interval nv) && timespec_valid (it_value nv) = false ->
  sys_timer_settime id flags nv k = (set_errno k EINVAL, (-1, zero_itimerspec)).
Proof. intros Ht Hv. unfold sys_timer_settime. rewrite Ht, Hv. reflexivity. Qed.

Lemma get_timerid_ok (w : world) (self tid : Z) :
  w_heap w !! self = Some {| timerid := Some tid |} -> get_timerid self w = (w, Ok tid).
Proof. intros H. unfold get_timerid. rewrite H. reflexivity. Qed.

(** C4 (amended). On a live timer, when [timer_settime] accepts the new
    setting (both timespecs valid after the [c_long] conversion),
    [set_precise] returns ((value s, ns), (interval s, ns)) of the setting
    the timer had immediately before the call; when it rejects it,
    [set_precise] raises and returns nothing. *)
Theorem set_precise_previous_setting (w : world) (self tid : Z) (kt : ktimer)
    (v i : Z * Z) (flags : Z) :
  w_heap w !! self = Some {| timerid := Some tid |} ->
  k_timers (w_kern w) !! tid = Some kt ->
  (timespec_valid (it_interval (mk_setval v i)) && timespec_valid (it_value (mk_setval v i)) = true ->
   snd (set_precise self v i flags w) = Ok (pairs_of (report kt))) /\
  (timespec_valid (it_interval (mk_setval v i)) && timespec_valid (it_value (mk_setval v i)) = false ->
   exists e, snd (set_precise self v i flags w) = Raise e).
Proof.
  intros Hh Ht. unfold set_precise.
  rewrite (bind_ok _ _ w w tid) by (apply get_timerid_ok; exact Hh).
  split; intros Hv.
  - destruct (settime_ok tid (c_int32 flags) (mk_setval v i) (w_kern w) kt Ht Hv) as [k' Hs].
    rewrite (bind_ok _ _ w (with_kern w k') (0, report kt)); [reflexivity|].
    apply librt_call_ok; [exact Hs | lia].
  - eexists. erewrite bind_raise; [reflexivity|].
    eapply (librt_call_fail _ _ _ zero_itimerspec). apply (settime_invalid _ _ _ _ kt Ht Hv).
Qed.

Lemma set_precise_previous_setting_witness :
  (w_heap armed_world !! 4096 = Some {| timerid := Some scenario_handle |} /\
   k_timers (w_kern armed_world) !! scenario_handle =
     Some {| kt_clock := 1; kt_sival := 4096; kt_value := 5000000000; kt_interval := 0;
             kt_overrun := 0 |}) /\
  snd (set_precise 4096 (1, 0) (0, 0) 0 armed_world) = Ok ((5, 0), (0, 0)).
Proof.
  split; [split; vm_compute; reflexivity |].
  apply (set_precise_previous_setting armed_world 4096 scenario_handle
           {| kt_clock := 1; kt_sival := 4096; kt_value := 5000000000; kt_interval := 0;
              kt_overrun := 0 |} (1, 0) (0, 0) 0);
    [vm_compute; reflexivity | vm_compute; reflexivity | vm_compute; reflexivity].
Defined.

(** C4 counterexample: a nanosecond field of 10^9 is rejected by the
    kernel and [set_precise] raises instead of returning the previous
    setting. *)
Lemma set_precise_invalid_counterexample :
  exists e, snd (set_precise 4096 (0, 1000000000) (0, 0) 0 armed_world) = Raise e.
Proof. eexists. vm_compute. reflexivity. Qed.


Lemma float_to_second_nsec_int0 : _float_to_second_nsec (PInt 0) = Ok (0, 0).
Proof. reflexivity. Qed.

Lemma float_to_second_nsec_float0 : _float_to_second_nsec (PFloat (S754_zero false)) = Ok (0, 0).
Proof. vm_compute. reflexivity. Qed.

Lemma second_nsec_to_float_0 : _second_nsec_to_float (0, 0) = Ok (S754_zero false).
Proof. vm_compute. reflexivity. Qed.

Lemma settime_disarm (id : Z) (k : kernel) (t : ktimer) :
  k_timers k !! id = Some t ->
  sys_timer_settime id (c_int32 0) (mk_setval (0, 0) (0, 0)) k =
  (set_timers k (<[id := ktimer_with t 0 0]> (k_timers k)), (0, report t)).
Proof. intros Ht. unfold sys_timer_settime. rewrite Ht. reflexivity. Qed.

Lemma set_precise_disarm (w : world) (self tid : Z) (kt : ktimer) :
  w_heap w !! self = Some {| timerid := Some tid |} ->
  k_timers (w_kern w) !! tid = Some kt ->
  set_precise self (0, 0) (0, 0) 0 w =
  (with_kern w (set_timers (w_kern w) (<[tid := ktimer_with kt 0 0]> (k_timers (w_kern w)))),
   Ok (pairs_of (report kt))).
Proof.
  intros Hh Ht. unfold set_precise.
  rewrite (bind_ok _ _ w w tid) by (apply get_timerid_ok; exact Hh).
  rewrite (bind_ok _ _ w (with_kern w (set_timers (w_kern w)
             (<[tid := ktimer_with kt 0 0]> (k_timers (w_kern w))))) (0, report kt));
    [reflexivity|].
  apply librt_call_ok; [apply settime_disarm; exact Ht | lia].
Qed.

Lemma lift_bind {A B} (r : result A) (k : A -> PyM B) (w : world) :
  (lift r ≫= k) w = match r with Ok a => k a w | Raise e => (w, Raise e) end.
Proof. destruct r; reflexivity. Qed.

Lemma disarm_unfold (w : world) (self tid : Z) (kt : ktimer) :
  w_heap w !! self = Some {| timerid := Some tid |} ->
  k_timers (w_kern w) !! tid = Some kt ->
  let w1 := with_kern w (set_timers (w_kern w) (<[tid := ktimer_with kt 0 0]> (k_timers (w_kern w)))) in
  disarm self w =
  (w1, a ← _second_nsec_to_float (fst (pairs_of (report kt)));
       b ← _second_nsec_to_float (snd (pairs_of (report kt))); mret (a, b)).
Proof.
  intros Hh Ht. unfold disarm, set.
  rewrite !float_to_second_nsec_int0, lift_bind, lift_bind.
  erewrite bind_ok; [| apply (set_precise_disarm w self tid kt Hh Ht)].
  destruct (pairs_of (report kt)) as [pv pi]. simpl.
  rewrite lift_bind. destruct (_second_nsec_to_float pv); [|reflexivity].
  rewrite lift_bind. destruct (_second_nsec_to_float pi); reflexivity.
Qed.

(** C5. [disarm()] is [set(0)] (interval and flags defaulting to 0, and
    the same as with float zeros), [disarm_precise()] is
    [set_precise((0,0))]; on a live timer the first [disarm] leaves it
    unarmed with a zero interval, and a second [disarm] returns an
    all-zero previous setting and leaves the state unchanged. *)
Theorem disarm_idempotent (w : world) (self tid : Z) (kt : ktimer) :
  w_heap w !! self = Some {| timerid := Some tid |} ->
  k_timers (w_kern w) !! tid = Some kt ->
  disarm self = set self (PInt 0) (PInt 0) 0 /\
  disarm self w = set self (PFloat (S754_zero false)) (PFloat (S754_zero false)) 0 w /\
  disarm_precise self = set_precise self (0, 0) (0, 0) 0 /\
  (let w1 := fst (disarm self w) in
   k_timers (w_kern w1) !! tid = Some (ktimer_with kt 0 0) /\
   disarm self w1 = (w1, Ok (S754_zero false, S754_zero false))).
Proof.
  intros Hh Ht. split; [reflexivity|]. split.
  { unfold disarm, set. rewrite !float_to_second_nsec_int0, !float_to_second_nsec_float0.
    reflexivity. }
  split; [reflexivity|].
  rewrite (disarm_unfold w self tid kt Hh Ht). simpl.
  assert (Ht1 : <[tid:=ktimer_with kt 0 0]> (k_timers (w_kern w)) !! tid = Some (ktimer_with kt 0 0))
    by apply lookup_insert_eq.
  split; [exact Ht1|].
  rewrite (disarm_unfold _ self tid (ktimer_with kt 0 0)); [| exact Hh | exact Ht1].
  assert (Hz : pairs_of (report (ktimer_with kt 0 0)) = ((0, 0), (0, 0))) by reflexivity.
  rewrite Hz. cbn [fst snd]. rewrite second_nsec_to_float_0. simpl.
  change (ktimer_with (ktimer_with kt 0 0) 0 0) with (ktimer_with kt 0 0).
  rewrite insert_insert_eq. reflexivity.
Qed.

Lemma disarm_idempotent_witness :
  (w_heap armed_world !! 4096 = Some {| timerid := Some scenario_handle |} /\
   k_timers (w_kern armed_world) !! scenario_handle =
     Some {| kt_clock := 1; kt_sival := 4096; kt_value := 5000000000; kt_interval := 0;
             kt_overrun := 0 |}) /\
  disarm 4096 (fst (disarm 4096 armed_world)) =
    (fst (disarm 4096 armed_world), Ok (S754_zero false, S754_zero false)).
Proof.
  split; [split; vm_compute; reflexivity |].
  apply (disarm_idempotent armed_world 4096 scenario_handle
           {| kt_clock := 1; kt_sival := 4096; kt_value := 5000000000; kt_interval := 0;
              kt_overrun := 0 |}); vm_compute; reflexivity.
Defined.


(** C6. The float variants are the codec around the precise ones: [set]
    converts [value] then [interval] with [_float_to_second_nsec], calls
    [set_precise], and converts both returned pairs with
    [_second_nsec_to_float]; [get] converts both pairs of [get_precise]. *)
Theorem set_get_are_codec_of_precise (w : world) (self : Z) (v i : float) (flags : Z) :
  set self (PFloat v) (PFloat i) flags w =
    match _float_to_second_nsec (PFloat v) with
    | Raise e => (w, Raise e)
    | Ok sv =>
        match _float_to_second_nsec (PFloat i) with
        | Raise e => (w, Raise e)
        | Ok si =>
            let '(w', r) := set_precise self sv si flags w in
            (w', match r with
                 | Ok (pv, pi) =>
                     a ← _second_nsec_to_float pv; b ← _second_nsec_to_float pi; mret (a, b)
                 | Raise e => Raise e
                 end)
        end
    end /\
  get self w =
    (let '(w', r) := get_precise self w in
     (w', match r with
          | Ok (pv, pi) =>
              a ← _second_nsec_to_float pv; b ← _second_nsec_to_float pi; mret (a, b)
          | Raise e => Raise e
          end)).
Proof.
  split.
  - unfold set. rewrite lift_bind.
    destruct (_float_to_second_nsec (PFloat v)) as [sv|e]; [|reflexivity].
    rewrite lift_bind.
    destruct (_float_to_second_nsec (PFloat i)) as [si|e]; [|reflexivity].
    unfold mbind at 1, PyM_bind at 1.
    destruct (set_precise self sv si flags w) as [w' [[pv pi]|e]]; [|reflexivity].
    rewrite lift_bind. destruct (_second_nsec_to_float pv); [|reflexivity].
    rewrite lift_bind. destruct (_second_nsec_to_float pi); reflexivity.
  - unfold get. unfold mbind at 1, PyM_bind at 1.
    destruct (get_precise self w) as [w' [[pv pi]|e]]; [|reflexivity].
    rewrite lift_bind. destruct (_second_nsec_to_float pv); [|reflexivity].
    rewrite lift_bind. destruct (_second_nsec_to_float pi); reflexivity.
Qed.

(** A handle [timer_create] writes names the new, disarmed timer. *)
Lemma timer_create_written (clockid sival : Z) (k k' : kernel) (v id : Z) :
  sys_timer_create clockid sival k = (k', (v, Some id)) ->
  k_timers k' !! id = Some {| kt_clock := clockid; kt_sival := sival; kt_value := 0;
                              kt_interval := 0; kt_overrun := 0 |}.
Proof.
  unfold sys_timer_create, sys_fail, new_timer. intros H.
  repeat match type of H with
         | context [match ?c with _ => _ end] => destruct c
         end; try discriminate;
    injection H as <- _ <-; apply lookup_insert_eq.
Qed.

Lemma del_no_handle (w : world) (self : Z) (o : option Z) :
  (o = None \/ o = Some 0) ->
  PosixTimer___del__ self (with_heap w (<[self := {| timerid := o |}]> (w_heap w)))
  = (with_heap w (<[self := {| timerid := o |}]> (w_heap w)), Ok tt).
Proof.
  intros Ho. unfold PosixTimer___del__. simpl. rewrite lookup_insert_eq.
  destruct Ho as [-> | ->]; reflexivity.
Qed.

(** C10. Finalization never raises whatever point construction reached:
    after [PosixTimer(clockid)] has run [__init__] (whether [timer_create]
    succeeded or failed) [__del__] returns normally; on an object without
    a [timerid] attribute, or with a null one, it makes no native call
    (the state is unchanged) and returns normally. *)
Theorem del_after_any_construction (w : world) (self clockid : Z) :
  snd (PosixTimer___del__ self (fst (construct self clockid w))) = Ok tt /\
  PosixTimer___del__ self (with_heap w (<[self := {| timerid := None |}]> (w_heap w)))
    = (with_heap w (<[self := {| timerid := None |}]> (w_heap w)), Ok tt) /\
  PosixTimer___del__ self (with_heap w (<[self := {| timerid := Some 0 |}]> (w_heap w)))
    = (with_heap w (<[self := {| timerid := Some 0 |}]> (w_heap w)), Ok tt).
Proof.
  split; [| split; apply del_no_handle; auto].
  unfold construct, PosixTimer___init__.
  unfold mbind at 1, PyM_bind at 1. cbn [fst snd].
  unfold mbind at 1, PyM_bind at 1, set_timerid. cbn [fst snd].
  set (w0 := with_heap (with_heap w (<[self:={| timerid := None |}]> (w_heap w)))
               (<[self:={| timerid := Some 0 |}]>
                  (w_heap (with_heap w (<[self:={| timerid := None |}]> (w_heap w)))))).
  assert (Hw0 : forall k', w_heap (with_kern w0 k') !! self = Some {| timerid := Some 0 |}).
  { intros k'. simpl. apply lookup_insert_eq. }
  assert (Hdel0 : forall w', w_heap w' !! self = Some {| timerid := Some 0 |} ->
                             PosixTimer___del__ self w' = (w', Ok tt)).
  { intros w' H. unfold PosixTimer___del__. rewrite H. reflexivity. }
  assert (Hfst : forall (w' : world) (v : Z),
             fst ((_ ← _error_handler v; mret tt : PyM unit) w') = w').
  { intros w' v. unfold _error_handler.
    destruct (v =? -1); reflexivity. }
  destruct (sys_timer_create (c_int32 clockid) self (w_kern w0)) as [k' [v out]] eqn:Hc.
  rewrite Hfst.
  destruct out as [id|].
  - (* [timer_create] wrote a handle: it is in the table *)
    assert (Hid : k_timers k' !! id = Some {| kt_clock := c_int32 clockid; kt_sival := self;
                     kt_value := 0; kt_interval := 0; kt_overrun := 0 |}).
    { apply (timer_create_written _ _ _ _ _ _ Hc). }
    unfold PosixTimer___del__. simpl. rewrite lookup_insert_eq.
    destruct (id =? 0); [reflexivity|]. simpl.
    erewrite bind_ok; [reflexivity|].
    eapply (librt_call_ok _ _ _ 0 tt); [unfold sys_timer_delete; simpl; rewrite Hid; reflexivity | lia].
  - rewrite Hdel0; [reflexivity | apply Hw0].
Qed.

(* ================================================================== *)
(** * The DurationCodec in binary64 *)

(** Lemmas on SpecFloat's rounding, used to compute the codec on whole
    families of inputs. *)


Lemma digits2_pos_log2 (p : positive) :
  Zpos (digits2_pos p) = Z.log2 (Zpos p) + 1.
Proof.
  induction p as [p IH|p IH|]; simpl digits2_pos.
  - rewrite Pos2Z.inj_succ, IH, Pos2Z.inj_xI, Z.log2_succ_double; lia.
  - rewrite Pos2Z.inj_succ, IH, Pos2Z.inj_xO, Z.log2_double; lia.
  - reflexivity.
Qed.

Lemma digits2_pos_bounds (p : positive) :
  2 ^ (Zpos (digits2_pos p) - 1) <= Zpos p < 2 ^ Zpos (digits2_pos p).
Proof.
  rewrite digits2_pos_log2. replace (Z.log2 (Zpos p) + 1 - 1) with (Z.log2 (Zpos p)) by lia.
  pose proof (Z.log2_spec (Zpos p) ltac:(lia)) as H. rewrite <- Z.add_1_r in H. exact H.
Qed.

Lemma digits2_pos_unique (p : positive) (d : Z) :
  2 ^ (d - 1) <= Zpos p < 2 ^ d -> Zpos (digits2_pos p) = d.
Proof.
  intros [H1 H2]. rewrite digits2_pos_log2.
  assert (0 < d).
  { pose proof (Pos2Z.is_pos p). destruct d as [|d|d]; [simpl in H2; lia | lia | rewrite Z.pow_neg_r in H2 by lia; lia]. }
  assert (Z.log2 (Zpos p) = d - 1); [|lia].
  apply Z.log2_unique; [lia|]. replace (Z.succ (d - 1)) with d by lia. lia.
Qed.

Lemma iter_pos_nat {A} (f : A -> A) (p : positive) (x : A) :
  SpecFloat.iter_pos f p x = Nat.iter (Pos.to_nat p) f x.
Proof.
  revert x. induction p as [p IH|p IH|]; intros x; cbn [SpecFloat.iter_pos].
  - rewrite Pos2Nat.inj_xI, IH, IH, <- Nat.iter_add.
    change (Nat.iter (S (2 * Pos.to_nat p)) f x) with (f (Nat.iter (2 * Pos.to_nat p) f x)).
    rewrite Nat.iter_swap_gen with (g := f) (h := f) by reflexivity.
    f_equal; lia.
  - rewrite Pos2Nat.inj_xO, IH, IH, <- Nat.iter_add. f_equal; lia.
  - reflexivity.
Qed.

Lemma shr_1_nonneg (m : Z) (r s : bool) : 0 <= m ->
  shr_1 {| shr_m := m; shr_r := r; shr_s := s |} =
  {| shr_m := m / 2; shr_r := Z.odd m; shr_s := r || s |}.
Proof.
  intros Hm. destruct m as [|p|p]; [reflexivity| |lia].
  destruct p as [p|p|]; cbn [shr_1];
    rewrite <- ?Z.div2_div; reflexivity.
Qed.

Lemma mod_double (m P : Z) : 0 < P ->
  m mod (2 * P) = P * ((m / P) mod 2) + m mod P.
Proof.
  intros HP. symmetry. apply Z.mod_unique with (q := m / P / 2).
  - pose proof (Z.mod_pos_bound m P HP). pose proof (Z.mod_pos_bound (m / P) 2 ltac:(lia)).
    left. nia.
  - pose proof (Z.div_mod m P ltac:(lia)). pose proof (Z.div_mod (m / P) 2 ltac:(lia)). nia.
Qed.

Lemma shr_iter (m : Z) (k : nat) : 0 <= m ->
  Nat.iter (S k) shr_1 {| shr_m := m; shr_r := false; shr_s := false |} =
  {| shr_m := m / 2 ^ Z.of_nat (S k); shr_r := Z.odd (m / 2 ^ Z.of_nat k);
     shr_s := negb (m mod 2 ^ Z.of_nat k =? 0) |}.
Proof.
  intros Hm. induction k as [|k IH].
  - cbn [Nat.iter]. rewrite shr_1_nonneg by lia. simpl Z.of_nat.
    rewrite Z.pow_0_r, Z.div_1_r, Z.mod_1_r. reflexivity.
  - change (Nat.iter (S (S k)) shr_1 {| shr_m := m; shr_r := false; shr_s := false |})
      with (shr_1 (Nat.iter (S k) shr_1 {| shr_m := m; shr_r := false; shr_s := false |})).
    rewrite IH, shr_1_nonneg.
    2: { apply Z.div_pos; [lia|]. apply Z.pow_pos_nonneg; lia. }
    assert (HP : 0 < 2 ^ Z.of_nat k) by (apply Z.pow_pos_nonneg; lia).
    replace (2 ^ Z.of_nat (S (S k))) with (2 ^ Z.of_nat (S k) * 2)
      by (rewrite !Nat2Z.inj_succ, !Z.pow_succ_r by lia; ring).
    rewrite <- Z.div_div by lia.
    replace (2 ^ Z.of_nat (S k)) with (2 * 2 ^ Z.of_nat k)
      by (rewrite Nat2Z.inj_succ, Z.pow_succ_r by lia; ring).
    rewrite (mod_double m (2 ^ Z.of_nat k) HP), Zmod_odd.
    f_equal.
    pose proof (Z.mod_pos_bound m (2 ^ Z.of_nat k) HP).
    destruct (Z.odd (m / 2 ^ Z.of_nat k)); simpl;
      destruct (m mod 2 ^ Z.of_nat k =? 0) eqn:E; simpl; 
      rewrite ?Z.eqb_eq, ?Z.eqb_neq in *; symmetry;
      rewrite ?Z.eqb_eq, ?Z.eqb_neq; lia.
Qed.

Lemma shr_iter_pos (m : Z) (p : positive) : 0 <= m ->
  SpecFloat.iter_pos shr_1 p {| shr_m := m; shr_r := false; shr_s := false |} =
  {| shr_m := m / 2 ^ Zpos p; shr_r := Z.odd (m / 2 ^ (Zpos p - 1));
     shr_s := negb (m mod 2 ^ (Zpos p - 1) =? 0) |}.
Proof.
  intros Hm. rewrite iter_pos_nat.
  destruct (Pos2Nat.is_succ p) as [k Hk]. rewrite Hk, shr_iter by exact Hm.
  replace (Zpos p - 1) with (Z.of_nat k) by lia.
  replace (Zpos p) with (Z.of_nat (S k)) by lia. reflexivity.
Qed.

Lemma shr_nonpos (mrs : shr_record) (e n : Z) : n <= 0 -> shr mrs e n = (mrs, e).
Proof. intros H. destruct n; [reflexivity | lia | reflexivity]. Qed.

Lemma shr_pos (m e n : Z) : 0 <= m -> 0 < n ->
  shr {| shr_m := m; shr_r := false; shr_s := false |} e n =
  ({| shr_m := m / 2 ^ n; shr_r := Z.odd (m / 2 ^ (n - 1));
      shr_s := negb (m mod 2 ^ (n - 1) =? 0) |}, e + n).
Proof.
  intros Hm Hn. destruct n as [|p|p]; try lia.
  unfold shr. rewrite shr_iter_pos by exact Hm. reflexivity.
Qed.

Lemma round_nearest_even_div (m n : Z) : 0 <= m -> 0 < n ->
  round_nearest_even (m / 2 ^ n)
    (loc_of_shr_record {| shr_m := m / 2 ^ n; shr_r := Z.odd (m / 2 ^ (n - 1));
                          shr_s := negb (m mod 2 ^ (n - 1) =? 0) |})
  = round_div m n.
Proof.
  intros Hm Hn. unfold round_div.
  assert (HP : 0 < 2 ^ (n - 1)) by (apply Z.pow_pos_nonneg; lia).
  assert (H2 : 2 ^ n = 2 * 2 ^ (n - 1)) by (rewrite <- Z.pow_succ_r by lia; f_equal; lia).
  assert (Hr : m mod 2 ^ n = 2 ^ (n - 1) * ((m / 2 ^ (n - 1)) mod 2) + m mod 2 ^ (n - 1))
    by (rewrite H2; apply mod_double; lia).
  rewrite Hr, Zmod_odd.
  pose proof (Z.mod_pos_bound m (2 ^ (n - 1)) HP).
  destruct (Z.odd (m / 2 ^ (n - 1))), (m mod 2 ^ (n - 1) =? 0) eqn:E;
    rewrite ?Z.eqb_eq, ?Z.eqb_neq in E; cbn [negb loc_of_shr_record round_nearest_even].
  - rewrite E, Z.add_0_r, Z.mul_1_r, Z.ltb_irrefl, Z.eqb_refl. reflexivity.
  - replace (2 ^ (n - 1) <? 2 ^ (n - 1) * 1 + m mod 2 ^ (n - 1)) with true by (symmetry; apply Z.ltb_lt; lia).
    reflexivity.
  - rewrite E. replace (2 ^ (n - 1) <? 2 ^ (n - 1) * 0 + 0) with false by (symmetry; apply Z.ltb_ge; lia).
    replace (2 ^ (n - 1) * 0 + 0 =? 2 ^ (n - 1)) with false by (symmetry; apply Z.eqb_neq; lia).
    reflexivity.
  - replace (2 ^ (n - 1) <? 2 ^ (n - 1) * 0 + m mod 2 ^ (n - 1)) with false by (symmetry; apply Z.ltb_ge; lia).
    replace (2 ^ (n - 1) * 0 + m mod 2 ^ (n - 1) =? 2 ^ (n - 1)) with false by (symmetry; apply Z.eqb_neq; lia).
    reflexivity.
Qed.

Lemma round_div_bounds (m n : Z) : 0 <= m -> 0 < n ->
  m / 2 ^ n <= round_div m n <= m / 2 ^ n + 1 /\
  m - 2 ^ (n - 1) <= round_div m n * 2 ^ n <= m + 2 ^ (n - 1).
Proof.
  intros Hm Hn. unfold round_div.
  assert (HP : 0 < 2 ^ (n - 1)) by (apply Z.pow_pos_nonneg; lia).
  assert (H2 : 2 ^ n = 2 * 2 ^ (n - 1)) by (rewrite <- Z.pow_succ_r by lia; f_equal; lia).
  pose proof (Z.div_mod m (2 ^ n) ltac:(lia)).
  pose proof (Z.mod_pos_bound m (2 ^ n) ltac:(lia)).
  set (q := m / 2 ^ n) in *. set (r := m mod 2 ^ n) in *. set (P := 2 ^ (n - 1)) in *.
  rewrite H2 in *.
  destruct (Z.ltb_spec P r); [nia|].
  destruct (Z.eqb_spec r P); [destruct (Z.even q); nia | nia].
Qed.

Lemma digits2_pos_le (p : positive) (k : Z) : 0 <= k -> Zpos p < 2 ^ k ->
  Zpos (digits2_pos p) <= k.
Proof.
  intros Hk Hp. pose proof (digits2_pos_bounds p) as [H1 _].
  assert (Zpos (digits2_pos p) - 1 < k); [|lia].
  apply (Z.pow_lt_mono_r_iff 2); lia.
Qed.

Lemma second_stage (s : bool) (q F : Z) :
  0 <= q <= 2 ^ prec -> emin prec emax <= F ->
  (let '(mrs'', e'') :=
     shr {| shr_m := q; shr_r := false; shr_s := false |} F
       (fexp prec emax (Zdigits2 q + F) - F) in
   match shr_m mrs'' with
   | Z0 => S754_zero s
   | Zpos m => if e'' <=? emax - prec then S754_finite s m e'' else S754_infinity s
   | Zneg _ => S754_nan
   end) = mk_round s q F.
Proof.
  intros Hq HF. unfold mk_round.
  destruct (Z.eqb_spec q 0) as [->|Hq0].
  - cbn [Zdigits2]. rewrite shr_nonpos by (unfold fexp, emin, prec, emax in *; lia).
    reflexivity.
  - destruct q as [|Q|Q]; try lia. cbn [Zdigits2].
    destruct (Z.ltb_spec (Zpos Q) (2 ^ prec)) as [Hlt|Hge].
    + pose proof (digits2_pos_le Q prec ltac:(unfold prec; lia) Hlt).
      rewrite shr_nonpos by (unfold fexp, emin, prec, emax in *; lia).
      reflexivity.
    + assert (HQ : Q = 9007199254740992%positive).
      { apply Pos2Z.inj. unfold prec in *. simpl in *. lia. }
      subst Q.
      replace (fexp prec emax (Zpos (digits2_pos 9007199254740992) + F) - F) with 1
        by (unfold fexp, emin, prec, emax in *; cbn [digits2_pos Pos.succ]; lia).
      reflexivity.
Qed.

Lemma round_aux_eq (s : bool) (M : positive) (e : Z) :
  binary_round_aux prec emax s (Zpos M) e loc_Exact =
  (let F := fexp prec emax (Zpos (digits2_pos M) + e) in
   if F <=? e then (if e <=? emax - prec then S754_finite s M e else S754_infinity s)
   else mk_round s (round_div (Zpos M) (F - e)) F).
Proof.
  unfold binary_round_aux, shr_fexp. cbn [Zdigits2 shr_record_of_loc]. cbv zeta.
  set (F := fexp prec emax (Zpos (digits2_pos M) + e)).
  destruct (Z.leb_spec F e) as [HFe|HFe].
  - rewrite shr_nonpos by lia. cbn [shr_m loc_of_shr_record round_nearest_even Zdigits2].
    fold F. rewrite shr_nonpos by lia. reflexivity.
  - rewrite shr_pos by lia. cbn [shr_m]. rewrite round_nearest_even_div by lia.
    replace (e + (F - e)) with F by lia.
    apply second_stage.
    + pose proof (round_div_bounds (Zpos M) (F - e) ltac:(lia) ltac:(lia)) as [[H1 H2] _].
      split; [pose proof (Z.div_pos (Zpos M) (2 ^ (F - e)) ltac:(lia) ltac:(apply Z.pow_pos_nonneg; lia)); lia|].
      assert (Zpos M / 2 ^ (F - e) < 2 ^ prec); [|lia].
      apply Z.div_lt_upper_bound; [apply Z.pow_pos_nonneg; lia|].
      pose proof (digits2_pos_bounds M) as [_ HM].
      rewrite <- Z.pow_add_r by (unfold prec; lia).
      eapply Z.lt_le_trans; [exact HM|]. apply Z.pow_le_mono_r; [lia|].
      subst F. unfold fexp, prec in *. lia.
    + subst F. unfold fexp. lia.
Qed.

Lemma pos_iter_xO (m d : positive) : Zpos (Pos.iter xO m d) = Zpos m * 2 ^ Zpos d.
Proof.
  induction d as [|d IH] using Pos.peano_ind.
  - cbn [Pos.iter]. lia.
  - rewrite Pos.iter_succ, Pos2Z.inj_succ, Z.pow_succ_r by lia.
    change (Zpos (Pos.iter xO m d)~0) with (2 * Zpos (Pos.iter xO m d)). rewrite IH. ring.
Qed.

Lemma digits2_pos_shift (m R : positive) (k : Z) : 0 <= k -> Zpos m = Zpos R * 2 ^ k ->
  Zpos (digits2_pos m) = Zpos (digits2_pos R) + k.
Proof.
  intros Hk Hm. apply digits2_pos_unique. rewrite Hm.
  pose proof (digits2_pos_bounds R) as [H1 H2].
  replace (Zpos (digits2_pos R) + k - 1) with ((Zpos (digits2_pos R) - 1) + k) by lia.
  rewrite !Z.pow_add_r by lia.
  pose proof (Z.pow_pos_nonneg 2 k ltac:(lia) Hk). nia.
Qed.

Lemma round_div_exact (R k n : Z) : 0 < n <= k ->
  round_div (R * 2 ^ k) n = R * 2 ^ (k - n).
Proof.
  intros Hn. unfold round_div.
  replace (R * 2 ^ k) with (R * 2 ^ (k - n) * 2 ^ n)
    by (rewrite <- Z.mul_assoc, <- Z.pow_add_r by lia; f_equal; f_equal; lia).
  assert (0 < 2 ^ n) by (apply Z.pow_pos_nonneg; lia).
  assert (0 < 2 ^ (n - 1)) by (apply Z.pow_pos_nonneg; lia).
  rewrite Z.div_mul, Z.mod_mul by lia.
  replace (2 ^ (n - 1) <? 0) with false by (symmetry; apply Z.ltb_ge; lia).
  replace (0 =? 2 ^ (n - 1)) with false by (symmetry; apply Z.eqb_neq; lia).
  reflexivity.
Qed.

Lemma binary_round_exact (s : bool) (m R : positive) (k e0 : Z) :
  0 <= k -> Zpos m = Zpos R * 2 ^ k ->
  Zpos (digits2_pos R) <= prec -> emin prec emax <= e0 ->
  fexp prec emax (Zpos (digits2_pos R) + e0) <= emax - prec ->
  exists m', Zpos m' = Zpos R * 2 ^ (e0 - fexp prec emax (Zpos (digits2_pos R) + e0)) /\
    binary_round prec emax s m (e0 - k) =
    S754_finite s m' (fexp prec emax (Zpos (digits2_pos R) + e0)).
Proof.
  intros Hk Hm HR He0 HF.
  set (F := fexp prec emax (Zpos (digits2_pos R) + e0)) in *.
  assert (HFe0 : F <= e0) by (subst F; unfold fexp, emin, prec in *; lia).
  assert (HFlo : Zpos (digits2_pos R) + e0 - prec <= F) by (subst F; unfold fexp; lia).
  pose proof (digits2_pos_shift m R k Hk Hm) as Hdm.
  unfold binary_round. rewrite Hdm.
  replace (Zpos (digits2_pos R) + k + (e0 - k)) with (Zpos (digits2_pos R) + e0) by lia.
  fold F. unfold shl_align.
  destruct (F - (e0 - k)) as [|d|d] eqn:Ed.
  - (* no alignment, already at the target exponent *)
    rewrite round_aux_eq. cbv zeta. rewrite Hdm.
    replace (Zpos (digits2_pos R) + k + (e0 - k)) with (Zpos (digits2_pos R) + e0) by lia.
    fold F. replace (F <=? e0 - k) with true by (symmetry; apply Z.leb_le; lia).
    replace (e0 - k <=? emax - prec) with true by (symmetry; apply Z.leb_le; lia).
    exists m. split; [rewrite Hm; f_equal; f_equal; lia | f_equal; lia].
  - (* the exponent is raised: the low [d] bits are zeros *)
    rewrite round_aux_eq. cbv zeta. rewrite Hdm.
    replace (Zpos (digits2_pos R) + k + (e0 - k)) with (Zpos (digits2_pos R) + e0) by lia.
    fold F. replace (F <=? e0 - k) with false by (symmetry; apply Z.leb_gt; lia).
    replace (F - (e0 - k)) with (Zpos d) by lia.
    rewrite Hm, round_div_exact by lia.
    unfold mk_round.
    assert (HP : 0 < 2 ^ (k - Zpos d)) by (apply Z.pow_pos_nonneg; lia).
    pose proof (digits2_pos_bounds R) as [_ HR2].
    replace (Zpos R * 2 ^ (k - Zpos d) =? 0) with false by (symmetry; apply Z.eqb_neq; nia).
    replace (Zpos R * 2 ^ (k - Zpos d) <? 2 ^ prec) with true.
    2:{ symmetry. apply Z.ltb_lt.
        apply Z.lt_le_trans with (2 ^ Zpos (digits2_pos R) * 2 ^ (k - Zpos d)); [nia|].
        rewrite <- Z.pow_add_r by lia. apply Z.pow_le_mono_r; lia. }
    replace (F <=? emax - prec) with true by (symmetry; apply Z.leb_le; lia).
    exists (Z.to_pos (Zpos R * 2 ^ (k - Zpos d))). split.
    + rewrite Z2Pos.id by nia. f_equal. f_equal. lia.
    + reflexivity.
  - (* the mantissa is shifted left down to exponent [F] *)
    rewrite round_aux_eq. cbv zeta.
    assert (Hd : Zpos d = e0 - k - F) by lia.
    rewrite (digits2_pos_shift (Pos.iter xO m d) R (k + Zpos d)) by
      (lia || (rewrite pos_iter_xO, Hm, Z.pow_add_r by lia; ring)).
    replace (Zpos (digits2_pos R) + (k + Zpos d) + F) with (Zpos (digits2_pos R) + e0) by lia.
    fold F. rewrite Z.leb_refl.
    replace (F <=? emax - prec) with true by (symmetry; apply Z.leb_le; lia).
    exists (Pos.iter xO m d). split; [|reflexivity].
    rewrite pos_iter_xO, Hm, <- Z.mul_assoc, <- Z.pow_add_r by lia. f_equal. f_equal. lia.
Qed.

Lemma shiftl_nonpos (a e : Z) : e <= 0 -> Z.shiftl a e = a / 2 ^ (- e).
Proof.
  intros He. rewrite <- (Z.opp_involutive e) at 1.
  rewrite Z.shiftl_opp_r, Z.shiftr_div_pow2 by lia. reflexivity.
Qed.

Lemma int_of_mk_round (s : bool) (q F : Z) : 0 <= q <= 2 ^ prec -> F + 1 <= 0 ->
  int_of_float (mk_round s q F) = Ok (if s then - (q / 2 ^ (- F)) else q / 2 ^ (- F)).
Proof.
  intros Hq HF. unfold mk_round.
  destruct (Z.eqb_spec q 0) as [->|Hq0].
  { rewrite Z.div_0_l by (apply Z.pow_nonzero; lia). destruct s; reflexivity. }
  destruct (Z.ltb_spec q (2 ^ prec)).
  - replace (F <=? emax - prec) with true by (symmetry; apply Z.leb_le; unfold emax, prec; lia).
    cbn [int_of_float]. rewrite Z2Pos.id, shiftl_nonpos by lia. reflexivity.
  - replace (F + 1 <=? emax - prec) with true by (symmetry; apply Z.leb_le; unfold emax, prec; lia).
    cbn [int_of_float]. rewrite shiftl_nonpos by lia.
    replace q with (2 ^ prec) by lia. unfold prec. cbn [Z.sub].
    replace (- F) with (- (F + 1) + 1) by lia.
    rewrite (Z.pow_add_r 2 (- (F + 1)) 1) by lia.
    replace (2 ^ 53) with (2 ^ 52 * 2) by reflexivity.
    rewrite Z.div_mul_cancel_r by (try apply Z.pow_nonzero; lia).
    reflexivity.
Qed.

Lemma frac_times_1e9 (s : bool) (mr : positive) (Fr e R : Z) :
  Zpos mr = R * 2 ^ (e - Fr) -> Fr <= e -> e < 0 -> 0 < R < 2 ^ (- e) -> R < 2 ^ 53 ->
  emin prec emax <= Fr ->
  exists n, 0 <= n < 10 ^ 9 /\
    int_of_float (fmul (S754_finite s mr Fr) f_1e9) = Ok (if s then - n else n).
Proof.
  intros Hmr HFr He HR HR53 Hemin.
  unfold fmul, f_1e9, SFmul. rewrite Bool.xorb_false_r, round_aux_eq. cbv zeta.
  set (MM := (mr * 8388608000000000)%positive).
  set (E := Fr + -23).
  set (D := Zpos (digits2_pos MM)).
  set (FF := fexp prec emax (D + E)).
  assert (HA : 0 < 2 ^ (23 + e - Fr)) by (apply Z.pow_pos_nonneg; lia).
  assert (HB : 0 < 2 ^ (- e)) by (apply Z.pow_pos_nonneg; lia).
  assert (HAB : 2 ^ (- E) = 2 ^ (23 + e - Fr) * 2 ^ (- e))
    by (rewrite <- Z.pow_add_r by lia; f_equal; lia).
  assert (HMM : Zpos MM = R * 10 ^ 9 * 2 ^ (23 + e - Fr)).
  { subst MM. rewrite Pos2Z.inj_mul, Hmr.
    replace (23 + e - Fr) with ((e - Fr) + 23) by lia.
    rewrite Z.pow_add_r by lia. change (Zpos 8388608000000000) with (10 ^ 9 * 2 ^ 23). ring. }
  assert (HMMlt : Zpos MM < 2 ^ 30 * 2 ^ (- E)).
  { rewrite HMM, HAB. assert (10 ^ 9 < 2 ^ 30) by reflexivity. nia. }
  assert (HD : D + E <= 30).
  { pose proof (digits2_pos_bounds MM) as [HD1 _]. fold D in HD1.
    rewrite <- Z.pow_add_r in HMMlt by lia.
    assert (D - 1 < 30 + - E); [|lia].
    apply (Z.pow_lt_mono_r_iff 2); [lia | lia |]. lia. }
  destruct (Z.leb_spec FF E) as [HFF|HFF].
  - replace (E <=? emax - prec) with true by (symmetry; apply Z.leb_le; unfold emax, prec; lia).
    exists (R * 10 ^ 9 / 2 ^ (- e)). split.
    + split; [apply Z.div_pos; lia|]. apply Z.div_lt_upper_bound; nia.
    + cbn [int_of_float]. rewrite shiftl_nonpos by lia. rewrite HMM, HAB.
      rewrite (Z.mul_comm (2 ^ (23 + e - Fr)) (2 ^ (- e))), Z.div_mul_cancel_r by lia.
      reflexivity.
  - set (N := FF - E).
    assert (HN : 0 < N) by lia.
    assert (HFF23 : FF <= -23) by (subst FF; unfold fexp, emin, prec, emax in *; lia).
    pose proof (round_div_bounds (Zpos MM) N ltac:(lia) HN) as [[Hq1 Hq2] [Hq3 Hq4]].
    set (q := round_div (Zpos MM) N) in *.
    assert (HqP : q <= 2 ^ prec).
    { assert (Zpos MM / 2 ^ N < 2 ^ prec); [|lia].
      apply Z.div_lt_upper_bound; [apply Z.pow_pos_nonneg; lia|].
      pose proof (digits2_pos_bounds MM) as [_ HD2]. fold D in HD2.
      rewrite <- Z.pow_add_r by (unfold prec; lia).
      eapply Z.lt_le_trans; [exact HD2|]. apply Z.pow_le_mono_r; [lia|].
      subst N FF. unfold fexp, prec in *. lia. }
    assert (Hq0 : 0 <= q) by (pose proof (Z.div_pos (Zpos MM) (2 ^ N) ltac:(lia) ltac:(apply Z.pow_pos_nonneg; lia)); lia).
    rewrite int_of_mk_round by lia.
    exists (q / 2 ^ (- FF)). split; [|reflexivity].
    split; [apply Z.div_pos; [lia | apply Z.pow_pos_nonneg; lia]|].
    apply Z.div_lt_upper_bound; [apply Z.pow_pos_nonneg; lia|].
    (* q * 2^N <= MM + 2^(N-1) < 10^9 * 2^(-E) = 10^9 * 2^(-FF) * 2^N *)
    assert (HNF : 2 ^ (- E) = 2 ^ (- FF) * 2 ^ N) by (rewrite <- Z.pow_add_r by lia; f_equal; lia).
    assert (HC : 2 ^ (N - 1) * 2 ^ 24 <= 2 ^ (- E)).
    { rewrite <- Z.pow_add_r by lia. apply Z.pow_le_mono_r; lia. }
    assert (HPN : 0 < 2 ^ N) by (apply Z.pow_pos_nonneg; lia).
    assert (Hkey : Zpos MM + 2 ^ (N - 1) < 10 ^ 9 * 2 ^ (- E)).
    { rewrite HMM. rewrite HAB in HC |- *.
      set (A := 2 ^ (23 + e - Fr)) in *. set (B := 2 ^ (- e)) in *.
      set (C := 2 ^ (N - 1)) in *.
      destruct (Z.le_gt_cases (- e) 53) as [Hs|Hs].
      - assert (HB53 : B <= 2 ^ 53) by (apply Z.pow_le_mono_r; lia).
        assert (0 <= (B - 1 - R) * A) by (apply Z.mul_nonneg_nonneg; lia).
        assert (0 <= (2 ^ 53 - B) * A) by (apply Z.mul_nonneg_nonneg; lia).
        nia.
      - assert (HB54 : 2 ^ 54 <= B) by (apply Z.pow_le_mono_r; lia).
        assert (0 <= (2 ^ 53 - 1 - R) * A) by (apply Z.mul_nonneg_nonneg; lia).
        assert (0 <= (B - 2 ^ 54) * A) by (apply Z.mul_nonneg_nonneg; lia).
        nia. }
    rewrite HNF in Hkey. nia.
Qed.

Lemma shl_align_fst (mx : positive) (ex ez : Z) : ez <= ex ->
  Zpos (fst (shl_align mx ex ez)) = Zpos mx * 2 ^ (ex - ez).
Proof.
  intros H. unfold shl_align. destruct (ez - ex) as [|d|d] eqn:Ed; cbn [fst].
  - replace (ex - ez) with 0 by lia. lia.
  - lia.
  - rewrite pos_iter_xO. f_equal. f_equal. lia.
Qed.

Lemma valid_finite (s : bool) (m : positive) (e : Z) :
  valid_binary prec emax (S754_finite s m e) = true ->
  fexp prec emax (Zpos (digits2_pos m) + e) = e /\ e <= emax - prec.
Proof.
  unfold valid_binary, bounded, canonical_mantissa.
  rewrite Bool.andb_true_iff, Z.eqb_eq, Z.leb_le. tauto.
Qed.

Lemma binary_normalize_signed (s : bool) (p : positive) (e : Z) :
  binary_normalize prec emax (if s then - Zpos p else Zpos p) e false =
  binary_round prec emax s p e.
Proof. destruct s; reflexivity. Qed.

Lemma signed_sub (s : bool) (x y : Z) :
  (if s then - x else x) - (if s then - y else y) = (if s then - (x - y) else x - y).
Proof. destruct s; lia. Qed.

Lemma float_to_second_nsec_parts (s : bool) (m : positive) (e : Z) :
  valid_binary prec emax (S754_finite s m e) = true ->
  let a := Z.shiftl (Zpos m) e in
  let t := if s then - a else a in
  float_of_int t = Ok (binary_normalize prec emax t 0 false) /\
  exists n, 0 <= n < 10 ^ 9 /\
    int_of_float (fmul (fsub (S754_finite s m e) (binary_normalize prec emax t 0 false)) f_1e9)
    = Ok (if s then - n else n).
Proof.
  intros Hv a t. apply valid_finite in Hv as [Hcan He971].
  pose proof (digits2_pos_bounds m) as [Hm1 Hm2].
  assert (HDm : Zpos (digits2_pos m) <= prec) by (unfold fexp, prec in *; lia).
  assert (Hemin : emin prec emax <= e) by (unfold fexp in Hcan; lia).
  assert (Hm53 : Zpos m < 2 ^ prec).
  { eapply Z.lt_le_trans; [exact Hm2|]. apply Z.pow_le_mono_r; lia. }
  destruct (Z.le_gt_cases 0 e) as [He0|He0].
  - (* integral value: the fraction is zero *)
    assert (Ha : a = Zpos m * 2 ^ e) by (apply Z.shiftl_mul_pow2; exact He0).
    assert (Hapos : 0 < a) by (rewrite Ha; apply Z.mul_pos_pos; [lia | apply Z.pow_pos_nonneg; lia]).
    destruct a as [|am|am] eqn:Ea; try lia.
    subst t. rewrite binary_normalize_signed.
    destruct (binary_round_exact s am m e e He0 Ha HDm Hemin ltac:(lia)) as [m' [Hm' Hr]].
    rewrite Z.sub_diag in Hr. rewrite Hcan in Hm', Hr.
    rewrite Z.sub_diag, Z.mul_1_r in Hm'. injection Hm' as ->.
    unfold float_of_int. rewrite binary_normalize_signed, Hr.
    split; [reflexivity|]. exists 0. split; [lia|].
    unfold fsub, SFsub. cbv zeta. rewrite Z.min_id. unfold shl_align. rewrite Z.sub_diag.
    cbn [fst]. destruct s; reflexivity.
  - (* fractional part: [m] split at the binary point *)
    assert (Ha : a = Zpos m / 2 ^ (- e)) by (apply shiftl_nonpos; lia).
    assert (HG : 0 < 2 ^ (- e)) by (apply Z.pow_pos_nonneg; lia).
    pose proof (Z.div_mod (Zpos m) (2 ^ (- e)) ltac:(lia)) as Hdm.
    pose proof (Z.mod_pos_bound (Zpos m) (2 ^ (- e)) HG) as Hrb.
    rewrite <- Ha in Hdm.
    set (r := Zpos m mod 2 ^ (- e)) in *.
    assert (Ha0 : 0 <= a) by (rewrite Ha; apply Z.div_pos; lia).
    destruct (Z.eqb_spec a 0) as [Ha00|Ha00].
    + (* |x| < 1 *)
      assert (Ht : t = 0) by (subst t; rewrite Ha00; destruct s; reflexivity).
      rewrite Ht. split; [reflexivity|].
      change (binary_normalize prec emax 0 0 false) with (S754_zero false).
      change (fsub (S754_finite s m e) (S754_zero false)) with (S754_finite s m e).
      apply (frac_times_1e9 s m e e (Zpos m)); try (unfold prec in *; lia).
      rewrite Z.sub_diag. lia.
    + (* |x| >= 1: subtract the integral part *)
      destruct a as [|am|am] eqn:Ea; try lia.
      assert (Ham : Zpos am < 2 ^ prec) by nia.
      assert (HDa : Zpos (digits2_pos am) <= prec) by (apply digits2_pos_le; unfold prec in *; lia).
      subst t. rewrite binary_normalize_signed.
      destruct (binary_round_exact s am am 0 0 ltac:(lia) ltac:(lia) HDa
                  ltac:(unfold emin, prec, emax; lia)
                  ltac:(unfold fexp, emin, prec, emax in *; lia)) as [ma [Hma Hr]].
      set (Fa := fexp prec emax (Zpos (digits2_pos am) + 0)) in *.
      assert (HFa : Fa <= 0) by (subst Fa; unfold fexp, emin, prec, emax in *; lia).
      rewrite Z.sub_0_r in Hr. unfold float_of_int. rewrite binary_normalize_signed, Hr.
      split; [reflexivity|].
      unfold fsub, SFsub. cbv zeta.
      set (ez := Z.min e Fa).
      rewrite (shl_align_fst m e ez) by (subst ez; lia).
      rewrite (shl_align_fst ma Fa ez) by (subst ez; lia).
      unfold cond_Zopp. rewrite signed_sub.
      assert (Hdiff : Zpos m * 2 ^ (e - ez) - Zpos ma * 2 ^ (Fa - ez) = r * 2 ^ (e - ez)).
      { rewrite Hma.
        assert (H2 : 2 ^ (0 - Fa) * 2 ^ (Fa - ez) = 2 ^ (- e) * 2 ^ (e - ez))
          by (rewrite <- !Z.pow_add_r by (subst ez; lia); f_equal; lia).
        rewrite Hdm at 1. rewrite <- Z.mul_assoc, H2. ring. }
      rewrite Hdiff.
      destruct (Z.eqb_spec r 0) as [Hr0|Hr0].
      * rewrite Hr0, Z.mul_0_l. exists 0. split; [lia|].
        destruct s; reflexivity.
      * assert (Hrp : 0 < r * 2 ^ (e - ez)) by (apply Z.mul_pos_pos; [lia | apply Z.pow_pos_nonneg; subst ez; lia]).
        destruct (r * 2 ^ (e - ez)) as [|rr|rr] eqn:Err; try lia.
        rewrite binary_normalize_signed.
        assert (Hr53 : r < 2 ^ prec) by (pose proof (Z.mod_le (Zpos m) (2 ^ (- e)) ltac:(lia) HG); lia).
        destruct r as [|rp|rp] eqn:Er; try lia.
        assert (HDr : Zpos (digits2_pos rp) <= prec) by (apply digits2_pos_le; unfold prec in *; lia).
        destruct (binary_round_exact s rr rp (e - ez) e ltac:(subst ez; lia) (eq_sym Err) HDr Hemin
                    ltac:(unfold fexp, emin, prec, emax in *; lia)) as [mr [Hmr Hround]].
        replace (e - (e - ez)) with ez in Hround by lia. rewrite Hround.
        apply (frac_times_1e9 s mr _ e (Zpos rp));
          first [exact Hmr | unfold fexp, emin, prec, emax in *; lia].
Qed.

Lemma float_to_second_nsec_finite (s : bool) (m : positive) (e : Z) :
  valid_binary prec emax (S754_finite s m e) = true ->
  let a := Z.shiftl (Zpos m) e in
  let t := if s then - a else a in
  exists n, 0 <= n < 10 ^ 9 /\
    int_of_float (fmul (fsub (S754_finite s m e) (binary_normalize prec emax t 0 false)) f_1e9)
    = Ok (if s then - n else n) /\
    _float_to_second_nsec (PFloat (S754_finite s m e)) = Ok (t, if s then - n else n).
Proof.
  intros Hv a t.
  destruct (float_to_second_nsec_parts s m e Hv) as [Hf [n [Hn Hi]]]. fold a t in Hf, Hi.
  exists n. split; [exact Hn|]. split; [exact Hi|].
  unfold _float_to_second_nsec. cbn [py_int int_of_float]. fold a t.
  cbn [mbind result_bind py_sub_int]. rewrite Hf. cbn [mbind result_bind py_mul_float py_int].
  rewrite Hi. reflexivity.
Qed.

Lemma binary_round_int_finite (s : bool) (p : positive) : Zpos p < 2 ^ 1023 ->
  match binary_round prec emax s p 0 with
  | S754_infinity _ | S754_nan => False
  | _ => True
  end.
Proof.
  intros Hp.
  assert (HD : Zpos (digits2_pos p) <= 1023) by (apply digits2_pos_le; lia).
  unfold binary_round. rewrite Z.add_0_r.
  set (F := fexp prec emax (Zpos (digits2_pos p))).
  assert (HF : F <= 970) by (subst F; unfold fexp, emin, prec, emax; lia).
  unfold shl_align. rewrite Z.sub_0_r.
  destruct F as [|d|d] eqn:EF.
  - rewrite round_aux_eq. cbv zeta. rewrite Z.add_0_r. fold F. rewrite EF. exact I.
  - rewrite round_aux_eq. cbv zeta. rewrite Z.add_0_r. fold F. rewrite EF. cbn [Z.leb Z.compare].
    unfold mk_round.
    destruct (_ =? 0); [exact I|].
    destruct (_ <? _).
    + replace (Zpos d <=? emax - prec) with true by (symmetry; apply Z.leb_le; unfold emax, prec; lia). exact I.
    + replace (Zpos d + 1 <=? emax - prec) with true by (symmetry; apply Z.leb_le; unfold emax, prec; lia). exact I.
  - rewrite round_aux_eq. cbv zeta.
    rewrite (digits2_pos_shift (Pos.iter xO p d) p (Zpos d)) by (lia || apply pos_iter_xO).
    replace (fexp prec emax (Zpos (digits2_pos p) + Zpos d + Zneg d))
      with (fexp prec emax (Zpos (digits2_pos p))) by (f_equal; lia).
    fold F. rewrite EF, Z.leb_refl.
    replace (Zneg d <=? emax - prec) with true by (symmetry; apply Z.leb_le; unfold emax, prec; lia).
    exact I.
Qed.

Lemma float_of_int_ok (z : Z) : Z.abs z < 2 ^ 1023 ->
  float_of_int z = Ok (binary_normalize prec emax z 0 false).
Proof.
  intros Hz. unfold float_of_int.
  destruct z as [|p|p]; [reflexivity| |].
  - change (binary_normalize prec emax (Zpos p) 0 false) with (binary_round prec emax false p 0).
    pose proof (binary_round_int_finite false p ltac:(lia)) as H.
    destruct (binary_round prec emax false p 0); tauto || reflexivity.
  - change (binary_normalize prec emax (Zneg p) 0 false) with (binary_round prec emax true p 0).
    pose proof (binary_round_int_finite true p ltac:(lia)) as H.
    destruct (binary_round prec emax true p 0); tauto || reflexivity.
Qed.

Lemma trunc_value_finite (s : bool) (m : positive) (e : Z) :
  trunc_value (S754_finite s m e) =
  (if s then - Z.shiftl (Zpos m) e else Z.shiftl (Zpos m) e).
Proof.
  unfold trunc_value. destruct (Z.le_gt_cases 0 e) as [He|He].
  - rewrite Z.max_l, Z.max_r by lia. rewrite Z.pow_0_r, Z.quot_1_r, Z.shiftl_mul_pow2 by lia.
    destruct s; ring.
  - rewrite Z.max_r, Z.max_l by lia. rewrite Z.pow_0_r, Z.mul_1_r, shiftl_nonpos by lia.
    assert (0 < 2 ^ (- e)) by (apply Z.pow_pos_nonneg; lia).
    destruct s.
    + rewrite Z.quot_opp_l, Z.quot_div_nonneg by lia. reflexivity.
    + rewrite Z.quot_div_nonneg by lia. reflexivity.
Qed.

Lemma int_of_float_trunc (z : float) (k : Z) : int_of_float z = Ok k -> trunc_value z = k.
Proof.
  destruct z as [s|s| |s m e]; cbn [int_of_float]; intros H; try discriminate.
  - injection H as <-. reflexivity.
  - injection H as <-. apply trunc_value_finite.
Qed.

Lemma div_of_bounds (a b n : Z) : 0 < b -> n * b <= a < (n + 1) * b -> a / b = n.
Proof.
  intros Hb H. symmetry. apply (Z.div_unique_pos a b n (a - n * b)); lia.
Qed.

(** The integer arithmetic of the round trip, exponent by exponent:
    [j] is the number of digits of [ns * C] ([C] the mantissa of [1e-9]),
    [q1] the mantissa of [ns * 1e-9] and [q2] that of its product by [1e9]. *)
Lemma roundtrip_stage1_arith (ns q1 j : Z) :
  53 <= j <= 83 -> 1 <= ns < 10 ^ 9 ->
  2 ^ (j - 1) <= ns * 4835703278458517 < 2 ^ j ->
  2 * ns * 4835703278458517 - 2 ^ (j - 53) <= 2 * q1 * 2 ^ (j - 53)
    <= 2 * ns * 4835703278458517 + 2 ^ (j - 53) ->
  2 ^ 52 <= q1 < 2 ^ 53 /\ j <= 82.
Proof.
  intros Hj. intros.
  assert (Hj' : j = 53 \/ j = 54 \/ j = 55 \/ j = 56 \/ j = 57 \/ j = 58 \/ j = 59 \/ j = 60 \/ j = 61 \/ j = 62 \/ j = 63 \/ j = 64 \/ j = 65 \/ j = 66 \/ j = 67 \/ j = 68 \/ j = 69 \/ j = 70 \/ j = 71 \/ j = 72 \/ j = 73 \/ j = 74 \/ j = 75 \/ j = 76 \/ j = 77 \/ j = 78 \/ j = 79 \/ j = 80 \/ j = 81 \/ j = 82 \/ j = 83) by lia.
  clear Hj. repeat destruct Hj' as [Hj'|Hj']; subst j; lia.
Qed.

Lemma roundtrip_stage2_arith (ns q1 q2 j D2 : Z) :
  53 <= j <= 82 -> 105 <= D2 <= 106 -> 1 <= ns < 10 ^ 9 ->
  2 ^ (j - 1) <= ns * 4835703278458517 < 2 ^ j ->
  2 * ns * 4835703278458517 - 2 ^ (j - 53) <= 2 * q1 * 2 ^ (j - 53)
    <= 2 * ns * 4835703278458517 + 2 ^ (j - 53) ->
  2 ^ 52 <= q1 < 2 ^ 53 ->
  2 ^ (D2 - 1) <= q1 * 8388608000000000 < 2 ^ D2 ->
  2 * q1 * 8388608000000000 - 2 ^ (D2 - 53) <= 2 * q2 * 2 ^ (D2 - 53)
    <= 2 * q1 * 8388608000000000 + 2 ^ (D2 - 53) ->
  ns * 2 ^ (211 - D2 - j) <= q2 < (ns + 1) * 2 ^ (211 - D2 - j).
Proof.
  intros Hj HD. intros.
  assert (Hj' : j = 53 \/ j = 54 \/ j = 55 \/ j = 56 \/ j = 57 \/ j = 58 \/ j = 59 \/ j = 60 \/ j = 61 \/ j = 62 \/ j = 63 \/ j = 64 \/ j = 65 \/ j = 66 \/ j = 67 \/ j = 68 \/ j = 69 \/ j = 70 \/ j = 71 \/ j = 72 \/ j = 73 \/ j = 74 \/ j = 75 \/ j = 76 \/ j = 77 \/ j = 78 \/ j = 79 \/ j = 80 \/ j = 81 \/ j = 82) by lia.
  assert (HD' : D2 = 105 \/ D2 = 106) by lia.
  clear Hj HD. repeat destruct Hj' as [Hj'|Hj']; subst j; destruct HD' as [-> | ->]; lia.
Qed.

Lemma pow_digits_range (p : positive) (lo hi : Z) : 0 <= lo ->
  2 ^ lo <= Zpos p < 2 ^ hi -> lo < Zpos (digits2_pos p) <= hi.
Proof.
  intros Hlo [H1 H2]. pose proof (digits2_pos_bounds p) as [H3 H4].
  split.
  - apply (Z.pow_lt_mono_r_iff 2); lia.
  - assert (Zpos (digits2_pos p) - 1 < hi); [|lia].
    apply (Z.pow_lt_mono_r_iff 2); [lia | |lia].
    destruct (Z.le_gt_cases 0 hi); [lia|]. rewrite Z.pow_neg_r in H2 by lia. lia.
Qed.

Lemma fadd_zero_mk_round (q F : Z) :
  fadd (S754_zero false) (mk_round false q F) = mk_round false q F.
Proof.
  unfold mk_round. destruct (q =? 0); [reflexivity|].
  destruct (q <? 2 ^ prec); [destruct (F <=? emax - prec) | destruct (F + 1 <=? emax - prec)];
    reflexivity.
Qed.

Lemma second_nsec_to_float_zero_sec (p : positive) : Zpos p < 10 ^ 9 ->
  exists q1 j,
    2 ^ (j - 1) <= Zpos p * 4835703278458517 < 2 ^ j /\
    2 * Zpos p * 4835703278458517 - 2 ^ (j - 53) <= 2 * q1 * 2 ^ (j - 53)
      <= 2 * Zpos p * 4835703278458517 + 2 ^ (j - 53) /\
    53 <= j <= 83 /\
    _second_nsec_to_float (0, Zpos p) = Ok (mk_round false q1 (j - 135)).
Proof.
  intros Hp.
  assert (HDp : Zpos (digits2_pos p) <= 30) by (apply digits2_pos_le; lia).
  destruct (binary_round_exact false p p 0 0 ltac:(lia) ltac:(lia) ltac:(unfold prec; lia)
              ltac:(unfold emin, prec, emax; lia)
              ltac:(unfold fexp, emin, prec, emax; lia)) as [mn [Hmn Hr]].
  set (Fn := fexp prec emax (Zpos (digits2_pos p) + 0)) in *.
  assert (HFn : Fn = Zpos (digits2_pos p) - 53) by (subst Fn; unfold fexp, emin, prec, emax; lia).
  rewrite Z.sub_0_r in Hr.
  set (j := Zpos (digits2_pos (p * 4835703278458517))).
  assert (Hjb := digits2_pos_bounds (p * 4835703278458517)). fold j in Hjb.
  rewrite Pos2Z.inj_mul in Hjb.
  assert (Hj : 53 <= j <= 83).
  { assert (52 < j <= 83); [|lia].
    apply (pow_digits_range (p * 4835703278458517) 52 83); [lia|]. rewrite Pos2Z.inj_mul. lia. }
  assert (HD1 : Zpos (digits2_pos (mn * 4835703278458517)) = j + (0 - Fn)).
  { apply digits2_pos_shift; [subst Fn; unfold fexp, emin, prec, emax in *; lia|].
    rewrite !Pos2Z.inj_mul, Hmn. ring. }
  set (N := j - 53 - Fn).
  assert (HN : 0 < N) by (subst N; lia).
  pose proof (round_div_bounds (Zpos (mn * 4835703278458517)) N ltac:(lia) HN) as [_ [Hq1 Hq2]].
  set (q1 := round_div (Zpos (mn * 4835703278458517)) N) in *.
  exists q1, j. split; [exact Hjb|]. split; [|split; [exact Hj|]].
  - assert (HP : 0 < 2 ^ (0 - Fn)) by (apply Z.pow_pos_nonneg; lia).
    assert (HNs : 2 ^ N = 2 ^ (j - 53) * 2 ^ (0 - Fn)) by (rewrite <- Z.pow_add_r by lia; f_equal; lia).
    assert (HN1 : 2 * 2 ^ (N - 1) = 2 ^ N) by (rewrite <- Z.pow_succ_r by lia; f_equal; lia).
    rewrite Pos2Z.inj_mul, Hmn in Hq1, Hq2.
    split; apply (Z.mul_le_mono_pos_r _ _ (2 ^ (0 - Fn)) HP); nia.
  - unfold _second_nsec_to_float. cbn [fst snd].
    assert (Hf : float_of_int (Zpos p) = Ok (S754_finite false mn Fn)).
    { unfold float_of_int.
      change (binary_normalize prec emax (Zpos p) 0 false) with (binary_round prec emax false p 0).
      rewrite Hr. reflexivity. }
    rewrite Hf, (eq_refl : float_of_int 0 = Ok (S754_zero false)). cbn [mbind result_bind].
    unfold fmul, f_1em9, SFmul. rewrite Bool.xorb_false_r, round_aux_eq. cbv zeta.
    rewrite HD1.
    replace (fexp prec emax (j + (0 - Fn) + (Fn + -82))) with (j - 135)
      by (unfold fexp, emin, prec, emax; lia).
    replace (j - 135 <=? Fn + -82) with false by (symmetry; apply Z.leb_gt; lia).
    replace (j - 135 - (Fn + -82)) with N by (subst N; lia).
    rewrite fadd_zero_mk_round. reflexivity.
Qed.

Lemma float_to_second_nsec_below_one (mq : positive) (Fx : Z) :
  2 ^ 52 <= Zpos mq < 2 ^ 53 -> emin prec emax <= Fx -> Fx <= -53 ->
  exists q2 D2,
    2 ^ (D2 - 1) <= Zpos mq * 8388608000000000 < 2 ^ D2 /\
    105 <= D2 <= 106 /\
    2 * Zpos mq * 8388608000000000 - 2 ^ (D2 - 53) <= 2 * q2 * 2 ^ (D2 - 53)
      <= 2 * Zpos mq * 8388608000000000 + 2 ^ (D2 - 53) /\
    _float_to_second_nsec (PFloat (S754_finite false mq Fx)) = Ok (0, q2 / 2 ^ (76 - D2 - Fx)).
Proof.
  intros Hmq HFx1 HFx2.
  set (D2 := Zpos (digits2_pos (mq * 8388608000000000))).
  assert (HDb := digits2_pos_bounds (mq * 8388608000000000)). fold D2 in HDb.
  rewrite Pos2Z.inj_mul in HDb.
  assert (HD : 105 <= D2 <= 106).
  { assert (104 < D2 <= 106); [|lia].
    apply (pow_digits_range (mq * 8388608000000000) 104 106); [lia|]. rewrite Pos2Z.inj_mul. lia. }
  set (N := D2 - 53).
  pose proof (round_div_bounds (Zpos (mq * 8388608000000000)) N ltac:(lia) ltac:(lia)) as [[Hq0 Hq0'] [Hq1 Hq2]].
  set (q2 := round_div (Zpos (mq * 8388608000000000)) N) in *.
  assert (HN1 : 2 * 2 ^ (N - 1) = 2 ^ N) by (rewrite <- Z.pow_succ_r by lia; f_equal; lia).
  assert (HPN : 0 < 2 ^ N) by (apply Z.pow_pos_nonneg; lia).
  rewrite Pos2Z.inj_mul in Hq1, Hq2, Hq0, Hq0'.
  exists q2, D2. split; [exact HDb|]. split; [exact HD|]. split; [subst N; nia|].
  unfold _float_to_second_nsec. cbn [py_int int_of_float].
  rewrite shiftl_nonpos by lia.
  rewrite Z.div_small
    by (split; [lia|]; eapply Z.lt_le_trans; [apply Hmq | apply Z.pow_le_mono_r; lia]).
  cbn [mbind result_bind py_sub_int].
  change (float_of_int 0) with (Ok (S754_zero false)). cbn [mbind result_bind py_mul_float py_int].
  change (fsub (S754_finite false mq Fx) (S754_zero false)) with (S754_finite false mq Fx).
  unfold fmul, f_1e9, SFmul. rewrite Bool.xorb_false_r, round_aux_eq. cbv zeta. fold D2.
  replace (fexp prec emax (D2 + (Fx + -23))) with (D2 + Fx - 76)
    by (unfold fexp, emin, prec, emax in *; lia).
  replace (D2 + Fx - 76 <=? Fx + -23) with false by (symmetry; apply Z.leb_gt; lia).
  replace (D2 + Fx - 76 - (Fx + -23)) with N by (subst N; lia).
  fold q2.
  assert (Hq2P : q2 <= 2 ^ prec).
  { assert (Zpos mq * 8388608000000000 / 2 ^ N < 2 ^ prec); [|lia].
    apply Z.div_lt_upper_bound; [lia|]. rewrite <- Z.pow_add_r by (unfold prec; lia).
    eapply Z.lt_le_trans; [apply HDb|]. apply Z.pow_le_mono_r; [lia|]. subst N; unfold prec; lia. }
  assert (0 <= Zpos mq * 8388608000000000 / 2 ^ N) by (apply Z.div_pos; lia).
  rewrite int_of_mk_round by lia.
  cbn [mbind result_bind]. replace (- (D2 + Fx - 76)) with (76 - D2 - Fx) by lia. reflexivity.
Qed.

Lemma roundtrip_zero_seconds (ns : Z) : 0 <= ns < 10 ^ 9 -> roundtrip (0, ns) = Ok (0, ns).
Proof.
  intros Hns. destruct ns as [|p|p]; [reflexivity| |lia].
  destruct (second_nsec_to_float_zero_sec p ltac:(lia)) as [q1 [j [Hjb [Hq [Hj Heq]]]]].
  destruct (roundtrip_stage1_arith (Zpos p) q1 j Hj ltac:(lia) Hjb Hq) as [Hq1 Hj82].
  unfold roundtrip. rewrite Heq. cbn [mbind result_bind].
  unfold mk_round.
  replace (q1 =? 0) with false by (symmetry; apply Z.eqb_neq; lia).
  replace (q1 <? 2 ^ prec) with true by (symmetry; apply Z.ltb_lt; unfold prec; lia).
  replace (j - 135 <=? emax - prec) with true by (symmetry; apply Z.leb_le; unfold emax, prec; lia).
  destruct (float_to_second_nsec_below_one (Z.to_pos q1) (j - 135)
              ltac:(rewrite Z2Pos.id; lia) ltac:(unfold emin, prec, emax; lia) ltac:(lia))
    as [q2 [D2 [HDb [HD [Hq2 Heq2]]]]].
  rewrite Heq2. rewrite Z2Pos.id in HDb, Hq2 by lia.
  do 2 f_equal.
  replace (76 - D2 - (j - 135)) with (211 - D2 - j) by lia.
  apply div_of_bounds; [apply Z.pow_pos_nonneg; lia|].
  apply (roundtrip_stage2_arith (Zpos p) q1 q2 j D2); lia.
Qed.

Lemma cond_Zopp_sub (s : bool) (a b : Z) : cond_Zopp s a - cond_Zopp s b = cond_Zopp s (a - b).
Proof. destruct s; cbn; lia. Qed.

Lemma abs_cond_Zopp (s : bool) (a : Z) : Z.abs (cond_Zopp s a) = Z.abs a.
Proof. destruct s; cbn; lia. Qed.

Lemma mk_round_value (s : bool) (q F : Z) :
  0 <= q <= 2 ^ 53 -> -1074 <= F -> F + 1 <= emax - prec ->
  fine (mk_round s q F) /\ fval (mk_round s q F) = cond_Zopp s (q * 2 ^ (F + 2200)).
Proof.
  intros Hq HF HF2. unfold mk_round.
  destruct (Z.eqb_spec q 0) as [->|Hq0]; [split; [exact I | destruct s; reflexivity]|].
  destruct (Z.ltb_spec q (2 ^ prec)) as [Hlt|Hge].
  - replace (F <=? emax - prec) with true by (symmetry; apply Z.leb_le; lia).
    cbn [fine fval]. rewrite Z2Pos.id by lia. unfold prec in *. split; [lia | reflexivity].
  - replace (F + 1 <=? emax - prec) with true by (symmetry; apply Z.leb_le; lia).
    cbn [fine fval]. unfold prec in *. replace q with (2 ^ 53) by lia.
    split; [cbn; lia|]. f_equal.
    change (Zpos (Z.to_pos (2 ^ (53 - 1)))) with (2 ^ 52).
    replace (F + 1 + 2200) with (1 + (F + 2200)) by lia.
    rewrite Z.pow_add_r by lia. change (2 ^ 53) with (2 ^ 52 * 2 ^ 1). ring.
Qed.

Lemma fexp_eq (x : Z) : fexp prec emax x = Z.max (x - 53) (-1074).
Proof. reflexivity. Qed.

Lemma round_aux_value (s : bool) (M : positive) (e : Z) :
  -2200 <= e -> Zpos (digits2_pos M) + e <= 900 ->
  let F := fexp prec emax (Zpos (digits2_pos M) + e) in
  let R := binary_round_aux prec emax s (Zpos M) e loc_Exact in
  fine R /\ (2 ^ (F + 2200) | fval R) /\
  2 * Z.abs (fval R - cond_Zopp s (Zpos M * 2 ^ (e + 2200))) <= 2 ^ (F + 2200).
Proof.
  intros He HD F R. subst R. rewrite round_aux_eq. cbv zeta. fold F.
  pose proof (digits2_pos_bounds M) as [HM1 HM2].
  set (D := Zpos (digits2_pos M)) in *.
  assert (HF : F = Z.max (D + e - 53) (-1074)) by (subst F; apply fexp_eq).
  destruct (Z.leb_spec F e) as [HFe|HFe].
  - replace (e <=? emax - prec) with true by (symmetry; apply Z.leb_le; unfold emax, prec; lia).
    cbn [fine fval]. split; [|split].
    + split; [lia|]. eapply Z.lt_le_trans; [exact HM2|]. apply Z.pow_le_mono_r; lia.
    + destruct s; cbn [cond_Zopp]; [apply Z.divide_opp_r|];
        exists (Zpos M * 2 ^ (e - F));
        rewrite <- Z.mul_assoc, <- Z.pow_add_r by lia; f_equal; f_equal; lia.
    + rewrite Z.sub_diag. cbn. apply Z.lt_le_incl, Z.pow_pos_nonneg; lia.
  - set (n := F - e).
    pose proof (round_div_bounds (Zpos M) n ltac:(lia) ltac:(lia)) as [[Hq1 Hq2] [Hq3 Hq4]].
    set (q := round_div (Zpos M) n) in *.
    assert (Hqb : 0 <= q <= 2 ^ 53).
    { split; [pose proof (Z.div_pos (Zpos M) (2 ^ n) ltac:(lia) ltac:(apply Z.pow_pos_nonneg; lia)); lia|].
      assert (Zpos M / 2 ^ n < 2 ^ 53); [|lia].
      apply Z.div_lt_upper_bound; [apply Z.pow_pos_nonneg; lia|].
      rewrite <- Z.pow_add_r by lia. eapply Z.lt_le_trans; [exact HM2|].
      apply Z.pow_le_mono_r; lia. }
    destruct (mk_round_value s q F Hqb ltac:(lia) ltac:(unfold emax, prec; lia)) as [Hfine Hval].
    split; [exact Hfine|]. rewrite Hval. split.
    + destruct s; cbn [cond_Zopp]; [apply Z.divide_opp_r|]; exists q; reflexivity.
    + rewrite cond_Zopp_sub, abs_cond_Zopp.
      assert (H2e : 0 < 2 ^ (e + 2200)) by (apply Z.pow_pos_nonneg; lia).
      assert (HFn : 2 ^ (F + 2200) = 2 ^ n * 2 ^ (e + 2200))
        by (rewrite <- Z.pow_add_r by lia; f_equal; lia).
      assert (Hn1 : 2 ^ n = 2 * 2 ^ (n - 1)) by (rewrite <- Z.pow_succ_r by lia; f_equal; lia).
      rewrite HFn, Hn1.
      replace (q * (2 * 2 ^ (n - 1) * 2 ^ (e + 2200)) - Zpos M * 2 ^ (e + 2200))
        with ((q * 2 ^ n - Zpos M) * 2 ^ (e + 2200)) by (rewrite Hn1; ring).
      rewrite Z.abs_mul, (Z.abs_eq (2 ^ (e + 2200))) by lia.
      assert (Z.abs (q * 2 ^ n - Zpos M) <= 2 ^ (n - 1)) by lia.
      nia.
Qed.

Lemma shl_align_spec (mx : positive) (ex ez : Z) :
  let '(mz, ez') := shl_align mx ex ez in
  ez' = Z.min ex ez /\ Zpos mz = Zpos mx * 2 ^ (ex - ez').
Proof.
  unfold shl_align. destruct (ez - ex) as [|d|d] eqn:Ed.
  - split; [lia|]. replace (ex - ex) with 0 by lia. lia.
  - split; [lia|]. replace (ex - ex) with 0 by lia. lia.
  - split; [lia|]. rewrite pos_iter_xO. f_equal. f_equal. lia.
Qed.

(** Rounding an exact value [M * 2^e] below [2^K] in magnitude: the
    error is at most half a unit in the last place of the binade [2^K],
    and none when [M * 2^e] is on that grid. *)
Lemma normalize_value (M e K : Z) :
  -1074 <= e -> -1021 <= K <= 900 -> Z.abs M * 2 ^ (e + 2200) < 2 ^ (K + 2200) ->
  let R := binary_normalize prec emax M e false in
  fine R /\ 2 * Z.abs (fval R - M * 2 ^ (e + 2200)) <= 2 ^ (K + 2147) /\
  ((2 ^ (K + 2147) | M * 2 ^ (e + 2200)) -> fval R = M * 2 ^ (e + 2200)).
Proof.
  intros He HK Hv R.
  assert (HPK : 0 < 2 ^ (K + 2147)) by (apply Z.pow_pos_nonneg; lia).
  assert (Hgen : forall (s : bool) (p : positive), M = cond_Zopp s (Zpos p) ->
    R = binary_round prec emax s p e -> 
    fine R /\ 2 * Z.abs (fval R - M * 2 ^ (e + 2200)) <= 2 ^ (K + 2147) /\
    ((2 ^ (K + 2147) | M * 2 ^ (e + 2200)) -> fval R = M * 2 ^ (e + 2200))).
  { intros s p HM HR. rewrite HR. clear R HR.
    unfold binary_round.
    set (F0 := fexp prec emax (Zpos (digits2_pos p) + e)).
    pose proof (shl_align_spec p e F0) as Hs.
    destruct (shl_align p e F0) as [mz ez] eqn:Esh. destruct Hs as [Hez Hmz].
    pose proof (digits2_pos_bounds p) as [Hp1 Hp2].
    set (D := Zpos (digits2_pos p)) in *.
    assert (HDz : Zpos (digits2_pos mz) = D + (e - ez))
      by (apply digits2_pos_shift; [lia | exact Hmz]).
    assert (HF0 : F0 = Z.max (D + e - 53) (-1074)) by (subst F0; apply fexp_eq).
    assert (HDK : D + e <= K).
    { assert (HA : Z.abs M = Zpos p) by (rewrite HM; destruct s; cbn; lia).
      rewrite HA in Hv.
      assert (2 ^ (D - 1 + (e + 2200)) < 2 ^ (K + 2200)).
      { rewrite Z.pow_add_r by lia.
        eapply Z.le_lt_trans; [|exact Hv]. apply Z.mul_le_mono_nonneg_r; [apply Z.pow_nonneg|]; lia. }
      apply Z.pow_lt_mono_r_iff in H; lia. }
    destruct (round_aux_value s mz ez ltac:(lia) ltac:(lia)) as [Hf [Hdiv Herr]].
    rewrite HDz in Hdiv, Herr.
    replace (D + (e - ez) + ez) with (D + e) in Hdiv, Herr by lia. fold F0 in Hdiv, Herr.
    assert (Hval : cond_Zopp s (Zpos mz * 2 ^ (ez + 2200)) = M * 2 ^ (e + 2200)).
    { rewrite HM, Hmz, <- Z.mul_assoc, <- Z.pow_add_r by lia.
      replace (e - ez + (ez + 2200)) with (e + 2200) by lia. destruct s; cbn; lia. }
    rewrite Hval in Herr.
    assert (HFK : 2 ^ (F0 + 2200) <= 2 ^ (K + 2147)) by (apply Z.pow_le_mono_r; lia).
    split; [exact Hf|]. split; [lia|].
    intros [c Hc].
    destruct Hdiv as [a Ha].
    assert (HG : 2 ^ (K + 2147) = 2 ^ (K + 2147 - (F0 + 2200)) * 2 ^ (F0 + 2200))
      by (rewrite <- Z.pow_add_r by lia; f_equal; lia).
    rewrite Hc, HG in Herr |- *. rewrite Ha in Herr |- *.
    set (P := 2 ^ (F0 + 2200)) in *.
    assert (HP : 0 < P) by (apply Z.pow_pos_nonneg; lia).
    replace (a * P - c * (2 ^ (K + 2147 - (F0 + 2200)) * P))
      with ((a - c * 2 ^ (K + 2147 - (F0 + 2200))) * P) in Herr by ring.
    rewrite Z.abs_mul, (Z.abs_eq P) in Herr by lia.
    assert (a - c * 2 ^ (K + 2147 - (F0 + 2200)) = 0) by nia.
    nia. }
  subst R. destruct M as [|p|p].
  - cbn. split; [exact I|]. split; [lia|]. reflexivity.
  - apply (Hgen false p); reflexivity.
  - apply (Hgen true p); reflexivity.
Qed.

Lemma fine_fval_finite (x : float) : fine x -> float_is_finite x = true.
Proof. destruct x; cbn; tauto. Qed.

Lemma fval_shl (s : bool) (mx : positive) (ex ez : Z) : -2200 <= ez <= ex ->
  cond_Zopp s (Zpos (fst (shl_align mx ex ez))) * 2 ^ (ez + 2200) = fval (S754_finite s mx ex).
Proof.
  intros H. rewrite shl_align_fst by lia. cbn [fval].
  assert (E : Zpos mx * 2 ^ (ex - ez) * 2 ^ (ez + 2200) = Zpos mx * 2 ^ (ex + 2200))
    by (rewrite <- Z.mul_assoc, <- Z.pow_add_r by lia; f_equal; f_equal; lia).
  destruct s; cbn; lia.
Qed.

Lemma fadd_value (a b : float) (K : Z) :
  fine a -> fine b -> -1021 <= K <= 900 -> Z.abs (fval a + fval b) < 2 ^ (K + 2200) ->
  fine (fadd a b) /\ 2 * Z.abs (fval (fadd a b) - (fval a + fval b)) <= 2 ^ (K + 2147) /\
  ((2 ^ (K + 2147) | fval a + fval b) -> fval (fadd a b) = fval a + fval b).
Proof.
  intros Ha Hb HK Hv.
  assert (HPK : 0 < 2 ^ (K + 2147)) by (apply Z.pow_pos_nonneg; lia).
  destruct a as [sa|sa| |sa ma ea]; cbn in Ha; try contradiction;
  destruct b as [sb|sb| |sb mb eb]; cbn in Hb; try contradiction.
  - unfold fadd, SFadd. destruct sa, sb; cbn; (split; [exact I | split; [lia | reflexivity]]).
  - unfold fadd, SFadd. cbn [fval] in *. split; [cbn; lia|]. split; [lia | intros; lia].
  - unfold fadd, SFadd. cbn [fval] in *. split; [cbn; lia|]. split; [lia | intros; lia].
  - unfold fadd, SFadd. cbv zeta.
    set (ez := Z.min ea eb).
    pose proof (fval_shl sa ma ea ez ltac:(subst ez; lia)) as E1.
    pose proof (fval_shl sb mb eb ez ltac:(subst ez; lia)) as E2.
    set (M := cond_Zopp sa (Zpos (fst (shl_align ma ea ez))) +
              cond_Zopp sb (Zpos (fst (shl_align mb eb ez)))).
    assert (HM : M * 2 ^ (ez + 2200) = fval (S754_finite sa ma ea) + fval (S754_finite sb mb eb))
      by (subst M; rewrite Z.mul_add_distr_r, E1, E2; reflexivity).
    rewrite <- HM in *.
    apply normalize_value; [subst ez; lia | lia |].
    rewrite <- (Z.abs_eq (2 ^ (ez + 2200))) by (apply Z.pow_nonneg; lia).
    rewrite <- Z.abs_mul. exact Hv.
Qed.

Lemma fsub_value (a b : float) (K : Z) :
  fine a -> fine b -> -1021 <= K <= 900 -> Z.abs (fval a - fval b) < 2 ^ (K + 2200) ->
  fine (fsub a b) /\ 2 * Z.abs (fval (fsub a b) - (fval a - fval b)) <= 2 ^ (K + 2147) /\
  ((2 ^ (K + 2147) | fval a - fval b) -> fval (fsub a b) = fval a - fval b).
Proof.
  intros Ha Hb HK Hv.
  assert (HPK : 0 < 2 ^ (K + 2147)) by (apply Z.pow_pos_nonneg; lia).
  destruct a as [sa|sa| |sa ma ea]; cbn in Ha; try contradiction;
  destruct b as [sb|sb| |sb mb eb]; cbn in Hb; try contradiction.
  - unfold fsub, SFsub. destruct sa, sb; cbn; (split; [exact I | split; [lia | reflexivity]]).
  - unfold fsub, SFsub. cbn [fval] in *. split; [cbn; lia|].
    replace (0 - cond_Zopp sb (Zpos mb * 2 ^ (eb + 2200)))
      with (cond_Zopp (negb sb) (Zpos mb * 2 ^ (eb + 2200))) by (destruct sb; cbn; lia).
    split; [lia | reflexivity].
  - unfold fsub, SFsub. cbn [fval] in *. split; [cbn; lia|]. rewrite Z.sub_0_r. split; [lia | reflexivity].
  - unfold fsub, SFsub. cbv zeta.
    set (ez := Z.min ea eb).
    pose proof (fval_shl sa ma ea ez ltac:(subst ez; lia)) as E1.
    pose proof (fval_shl sb mb eb ez ltac:(subst ez; lia)) as E2.
    set (M := cond_Zopp sa (Zpos (fst (shl_align ma ea ez))) -
              cond_Zopp sb (Zpos (fst (shl_align mb eb ez)))).
    assert (HM : M * 2 ^ (ez + 2200) = fval (S754_finite sa ma ea) - fval (S754_finite sb mb eb))
      by (subst M; rewrite Z.mul_sub_distr_r, E1, E2; reflexivity).
    rewrite <- HM in *.
    apply normalize_value; [subst ez; lia | lia |].
    rewrite <- (Z.abs_eq (2 ^ (ez + 2200))) by (apply Z.pow_nonneg; lia).
    rewrite <- Z.abs_mul. exact Hv.
Qed.

Lemma fmul_value (a b : float) (K : Z) :
  fine a -> fine b -> -1021 <= K <= 900 -> Z.abs (fval a * fval b) < 2 ^ (K + 4400) ->
  fine (fmul a b) /\
  2 * Z.abs (fval (fmul a b) * 2 ^ 2200 - fval a * fval b) <= 2 ^ (K + 4347).
Proof.
  intros Ha Hb HK Hv.
  assert (HPK : 0 < 2 ^ (K + 4347)) by (apply Z.pow_pos_nonneg; lia).
  destruct a as [sa|sa| |sa ma ea]; cbn in Ha; try contradiction;
  destruct b as [sb|sb| |sb mb eb]; cbn in Hb; try contradiction;
    try (unfold fmul, SFmul; cbn [fval fine]; split; [exact I | lia]).
  unfold fmul, SFmul.
  pose proof (digits2_pos_bounds (ma * mb)) as [HD1 HD2].
  set (D := Zpos (digits2_pos (ma * mb))) in *.
  assert (Hprod : fval (S754_finite sa ma ea) * fval (S754_finite sb mb eb) =
                  cond_Zopp (xorb sa sb) (Zpos (ma * mb) * 2 ^ (ea + eb + 2200)) * 2 ^ 2200).
  { cbn [fval]. rewrite Pos2Z.inj_mul.
    assert (E : 2 ^ (ea + 2200) * 2 ^ (eb + 2200) = 2 ^ (ea + eb + 2200) * 2 ^ 2200)
      by (rewrite <- !Z.pow_add_r by lia; f_equal; lia).
    transitivity (cond_Zopp (xorb sa sb) (Zpos ma * Zpos mb * (2 ^ (ea + 2200) * 2 ^ (eb + 2200)))).
    - destruct sa, sb; cbn; ring.
    - rewrite E. destruct sa, sb; cbn; ring. }
  assert (HDK : D + (ea + eb) <= K).
  { rewrite Hprod, Z.abs_mul, abs_cond_Zopp, Z.abs_mul in Hv.
    rewrite (Z.abs_eq (2 ^ (ea + eb + 2200))), (Z.abs_eq (2 ^ 2200)) in Hv by (apply Z.pow_nonneg; lia).
    change (Z.abs (Zpos (ma * mb))) with (Zpos (ma * mb)) in Hv.
    assert (2 ^ (D - 1 + (ea + eb + 2200) + 2200) < 2 ^ (K + 4400)).
    { assert (HD0 : 1 <= D) by (subst D; lia).
      assert (E : 2 ^ (D - 1 + (ea + eb + 2200) + 2200) =
                  2 ^ (D - 1) * 2 ^ (ea + eb + 2200) * 2 ^ 2200)
        by (rewrite <- !Z.pow_add_r by lia; reflexivity).
      rewrite E. eapply Z.le_lt_trans; [|exact Hv].
      apply Z.mul_le_mono_nonneg_r; [apply Z.pow_nonneg; lia|].
      apply Z.mul_le_mono_nonneg_r; [apply Z.pow_nonneg; lia|]. exact HD1. }
    apply Z.pow_lt_mono_r_iff in H; lia. }
  destruct (round_aux_value (xorb sa sb) (ma * mb) (ea + eb) ltac:(lia) ltac:(lia))
    as [Hf [_ Herr]].
  fold D in Herr.
  split; [exact Hf|].
  rewrite Hprod, <- Z.mul_sub_distr_r, Z.abs_mul, (Z.abs_eq (2 ^ 2200)) by (apply Z.pow_nonneg; lia).
  assert (2 ^ (fexp prec emax (D + (ea + eb)) + 2200) <= 2 ^ (K + 2147))
    by (apply Z.pow_le_mono_r; [lia | rewrite fexp_eq; lia]).
  replace (2 ^ (K + 4347)) with (2 ^ (K + 2147) * 2 ^ 2200)
    by (rewrite <- Z.pow_add_r by lia; f_equal; lia).
  assert (0 < 2 ^ 2200) by (apply Z.pow_pos_nonneg; lia).
  nia.
Qed.

Lemma int_of_float_fval (x : float) : fine x -> int_of_float x = Ok (Z.quot (fval x) (2 ^ 2200)).
Proof.
  intros Hx. destruct x as [s|s| |s m e]; cbn in Hx; try contradiction; [reflexivity|].
  cbn [int_of_float fval].
  assert (Hq : Z.shiftl (Zpos m) e = Zpos m * 2 ^ (e + 2200) / 2 ^ 2200).
  { destruct (Z.le_gt_cases 0 e).
    - rewrite Z.shiftl_mul_pow2 by lia.
      rewrite Z.pow_add_r, Z.mul_assoc, Z.div_mul by (try apply Z.pow_nonzero; lia). reflexivity.
    - rewrite shiftl_nonpos by lia.
      replace (2 ^ 2200) with (2 ^ (e + 2200) * 2 ^ (- e))
        by (rewrite <- Z.pow_add_r by lia; f_equal; lia).
      rewrite (Z.mul_comm (Zpos m)), Z.div_mul_cancel_l by (apply Z.pow_nonzero; lia).
      reflexivity. }
  assert (0 <= Zpos m * 2 ^ (e + 2200)) by (apply Z.mul_nonneg_nonneg; [lia | apply Z.pow_nonneg; lia]).
  assert (0 < 2 ^ 2200) by (apply Z.pow_pos_nonneg; lia).
  destruct s; cbn [cond_Zopp]; f_equal.
  - rewrite Z.quot_opp_l, Z.quot_div_nonneg by lia. rewrite Hq. reflexivity.
  - rewrite Z.quot_div_nonneg by lia. exact Hq.
Qed.

Lemma float_of_int_fval (z : Z) : Z.abs z < 2 ^ 53 ->
  fine (binary_normalize prec emax z 0 false) /\
  fval (binary_normalize prec emax z 0 false) = z * 2 ^ 2200 /\
  float_of_int z = Ok (binary_normalize prec emax z 0 false).
Proof.
  intros Hz.
  destruct (normalize_value z 0 53 ltac:(lia) ltac:(lia)) as [Hf [_ Hex]].
  { replace (0 + 2200) with 2200 by lia. rewrite (Z.pow_add_r 2 53 2200) by lia.
    apply Z.mul_lt_mono_pos_r; [apply Z.pow_pos_nonneg|]; lia. }
  replace (0 + 2200) with 2200 in Hex by lia. replace (53 + 2147) with 2200 in Hex by lia.
  rewrite Hex by (apply Z.divide_factor_r).
  split; [exact Hf|]. split; [reflexivity|].
  unfold float_of_int. destruct (binary_normalize prec emax z 0 false); cbn in Hf; tauto || reflexivity.
Qed.

(** [x - float(int(x))] is exact: the remainder of the truncation. *)
Lemma frac_value (x : float) : fine x -> Z.abs (Z.quot (fval x) (2 ^ 2200)) < 2 ^ 53 ->
  fine (fsub x (binary_normalize prec emax (Z.quot (fval x) (2 ^ 2200)) 0 false)) /\
  fval (fsub x (binary_normalize prec emax (Z.quot (fval x) (2 ^ 2200)) 0 false))
  = Z.rem (fval x) (2 ^ 2200).
Proof.
  intros Hx Ht.
  set (t := Z.quot (fval x) (2 ^ 2200)) in *.
  destruct (float_of_int_fval t Ht) as [Hft [Hvt _]].
  assert (HP : 0 < 2 ^ 2200) by (apply Z.pow_pos_nonneg; lia).
  assert (Hrem : fval x - fval (binary_normalize prec emax t 0 false) = Z.rem (fval x) (2 ^ 2200)).
  { rewrite Hvt. pose proof (Z.quot_rem' (fval x) (2 ^ 2200)). fold t in H. lia. }
  pose proof (Z.rem_bound_abs (fval x) (2 ^ 2200) ltac:(lia)) as Hb.
  pose proof (Z.quot_rem' (fval x) (2 ^ 2200)) as Hqr. fold t in Hqr.
  assert (Hsign : (0 <= fval x -> 0 <= Z.rem (fval x) (2 ^ 2200)) /\
                  (fval x <= 0 -> Z.rem (fval x) (2 ^ 2200) <= 0)).
  { split; intros; [apply Z.rem_nonneg | apply Z.rem_nonpos]; lia. }
  destruct x as [s|s| |s m e]; cbn in Hx; try contradiction.
  - destruct (fsub_value (S754_zero s) (binary_normalize prec emax t 0 false) 0
                ltac:(exact I) Hft ltac:(lia) ltac:(rewrite Hrem; cbn in Hb |- *; lia))
      as [Hf [_ Hex]].
    split; [exact Hf|]. rewrite Hex, Hrem; [reflexivity|].
    rewrite Hrem. cbn [fval]. rewrite Z.rem_0_l by lia. apply Z.divide_0_r.
  - destruct (Z.le_gt_cases 0 e) as [He|He].
    + assert (Hdiv : (2 ^ 2200 | fval (S754_finite s m e))).
      { cbn [fval]. destruct s; cbn [cond_Zopp]; [apply Z.divide_opp_r|];
          exists (Zpos m * 2 ^ e); rewrite <- Z.mul_assoc, <- Z.pow_add_r by lia; f_equal; f_equal; lia. }
      assert (Hr0 : Z.rem (fval (S754_finite s m e)) (2 ^ 2200) = 0)
        by (apply Z.rem_divide; lia || exact Hdiv).
      destruct (fsub_value (S754_finite s m e) (binary_normalize prec emax t 0 false) 0
                  ltac:(cbn; lia) Hft ltac:(lia) ltac:(rewrite Hrem, Hr0; cbn; lia))
        as [Hf [_ Hex]].
      split; [exact Hf|]. rewrite Hex, Hrem; [reflexivity|]. rewrite Hrem, Hr0. apply Z.divide_0_r.
    + assert (Hxb : Z.abs (fval (S754_finite s m e)) < 2 ^ (e + 53 + 2200)).
      { cbn [fval]. rewrite abs_cond_Zopp, Z.abs_mul, (Z.abs_eq (2 ^ (e + 2200))) by (apply Z.pow_nonneg; lia).
        replace (e + 53 + 2200) with (53 + (e + 2200)) by lia.
        rewrite (Z.pow_add_r 2 53 (e + 2200)) by lia. apply Z.mul_lt_mono_pos_r; [apply Z.pow_pos_nonneg|]; lia. }
      destruct (fsub_value (S754_finite s m e) (binary_normalize prec emax t 0 false) (e + 53)
                  ltac:(cbn; lia) Hft ltac:(lia) ltac:(rewrite Hrem; lia))
        as [Hf [_ Hex]].
      split; [exact Hf|]. rewrite Hex, Hrem; [reflexivity|].
      replace (e + 53 + 2147) with (e + 2200) by lia.
      rewrite Hvt.
      apply Z.divide_sub_r.
      * cbn [fval]. destruct s; cbn [cond_Zopp]; [apply Z.divide_opp_r|]; apply Z.divide_factor_r.
      * apply Z.divide_mul_r. exists (2 ^ (- e)). rewrite <- Z.pow_add_r by lia. f_equal. lia.
Qed.

(** The error analysis of the round trip, in units of [2^-2200]. *)
Lemma roundtrip_error_arith (s ns Y X sec R Pp ns' R2 : Z) :
  - 2 ^ 34 < s < 2 ^ 34 -> 0 <= ns < 10 ^ 9 ->
  - 2 ^ 2146 <= Y - ns * 4835703278458517 * 2 ^ 2118 <= 2 ^ 2146 ->
  - 2 ^ 2180 <= X - (s * 2 ^ 2200 + Y) <= 2 ^ 2180 ->
  X = 2 ^ 2200 * sec + R -> - 2 ^ 2200 < R < 2 ^ 2200 ->
  - 2 ^ 2176 <= Pp - R * 10 ^ 9 <= 2 ^ 2176 ->
  Pp = 2 ^ 2200 * ns' + R2 -> - 2 ^ 2200 < R2 < 2 ^ 2200 ->
  - 1000 <= sec * 10 ^ 9 + ns' - (s * 10 ^ 9 + ns) <= 1000.
Proof. intros. lia. Qed.

Lemma roundtrip_error (s ns : Z) : Z.abs s < 2 ^ 34 -> 0 <= ns < 10 ^ 9 ->
  exists s' ns', roundtrip (s, ns) = Ok (s', ns') /\
    Z.abs (s' * 10 ^ 9 + ns' - (s * 10 ^ 9 + ns)) <= 1000.
Proof.
  intros Hs Hns.
  set (P := 2 ^ 2200).
  assert (HP : P = 2 ^ 2200) by reflexivity.
  destruct (float_of_int_fval ns ltac:(lia)) as [Hfn [Hvn Hon]].
  set (fn := binary_normalize prec emax ns 0 false) in *.
  assert (Hf9 : fine f_1em9) by (cbn; lia).
  assert (Hv9 : fval f_1em9 = 4835703278458517 * 2 ^ 2118) by reflexivity.
  destruct (fmul_value fn f_1em9 0 Hfn Hf9 ltac:(lia)) as [Hfy Hey].
  { rewrite Hvn, Hv9. rewrite Z.abs_mul, !Z.abs_eq by lia. lia. }
  set (y := fmul fn f_1em9) in *.
  rewrite Hvn, Hv9 in Hey.
  destruct (float_of_int_fval s ltac:(lia)) as [Hfs [Hvs Hos]].
  set (fs := binary_normalize prec emax s 0 false) in *.
  assert (HY : Z.abs (fval y - ns * 4835703278458517 * 2 ^ 2118) <= 2 ^ 2146) by (clear - Hey; lia).
  assert (Hxb : Z.abs (fval fs + fval y) < 2 ^ (34 + 2200)).
  { rewrite Hvs. clear - Hs Hns HY. lia. }
  destruct (fadd_value fs y 34 Hfs Hfy ltac:(lia) Hxb) as [Hfx [Hex _]].
  set (x := fadd fs y) in *.
  rewrite Hvs in Hex.
  assert (HX : Z.abs (fval x) < 2 ^ 35 * 2 ^ 2200) by (clear - Hxb Hex Hvs; rewrite Hvs in Hxb; lia).
  pose proof (int_of_float_fval x Hfx) as Hsec.
  set (sec := Z.quot (fval x) (2 ^ 2200)) in *.
  pose proof (Z.quot_rem' (fval x) (2 ^ 2200)) as Hqr. fold sec in Hqr.
  pose proof (Z.rem_bound_abs (fval x) (2 ^ 2200) ltac:(lia)) as Hrb.
  set (R := Z.rem (fval x) (2 ^ 2200)) in *.
  assert (Hsb : Z.abs sec < 2 ^ 53) by (rewrite (Z.abs_eq (2 ^ 2200)) in Hrb by lia; clear - HX Hqr Hrb; lia).
  destruct (frac_value x Hfx Hsb) as [Hfd Hvd]. fold sec in Hfd, Hvd. fold R in Hvd.
  destruct (float_of_int_fval sec Hsb) as [_ [_ Hosec]].
  set (d := fsub x (binary_normalize prec emax sec 0 false)) in *.
  assert (Hf1 : fine f_1e9) by (cbn; lia).
  assert (Hv1 : fval f_1e9 = 10 ^ 9 * 2 ^ 2200) by reflexivity.
  destruct (fmul_value d f_1e9 30 Hfd Hf1 ltac:(lia)) as [Hfp Hep].
  { rewrite Hvd, Hv1. rewrite Z.abs_mul, (Z.abs_eq (10 ^ 9 * 2 ^ 2200)) by lia.
    rewrite (Z.abs_eq (2 ^ 2200)) in Hrb by lia. clear - Hrb. lia. }
  set (p := fmul d f_1e9) in *.
  rewrite Hvd, Hv1 in Hep.
  pose proof (int_of_float_fval p Hfp) as Hns'.
  pose proof (Z.quot_rem' (fval p) (2 ^ 2200)) as Hqr2.
  pose proof (Z.rem_bound_abs (fval p) (2 ^ 2200) ltac:(lia)) as Hrb2.
  set (ns' := Z.quot (fval p) (2 ^ 2200)) in *.
  exists sec, ns'. split.
  - unfold roundtrip, _second_nsec_to_float, _float_to_second_nsec.
    cbn [fst snd]. rewrite Hon. cbn [mbind result_bind]. fold y. rewrite Hos.
    cbn [mbind result_bind]. fold x. cbn [py_int]. rewrite Hsec. cbn [mbind result_bind].
    cbn [py_sub_int]. rewrite Hosec. cbn [mbind result_bind]. fold d.
    cbn [py_mul_float mbind result_bind]. fold p. cbn [py_int]. rewrite Hns'. reflexivity.
  - rewrite (Z.abs_eq (2 ^ 2200)) in Hrb, Hrb2 by lia.
    apply Z.abs_le.
    assert (A1 : - 2 ^ 34 < s < 2 ^ 34) by (clear - Hs; lia).
    assert (A2 : - 2 ^ 2146 <= fval y - ns * 4835703278458517 * 2 ^ 2118 <= 2 ^ 2146)
      by (clear - HY; lia).
    assert (A3 : - 2 ^ 2180 <= fval x - (s * 2 ^ 2200 + fval y) <= 2 ^ 2180) by (clear - Hex; lia).
    assert (A4 : - 2 ^ 2200 < R < 2 ^ 2200) by (clear - Hrb; lia).
    assert (A5 : - 2 ^ 2176 <= fval p - R * 10 ^ 9 <= 2 ^ 2176) by (clear - Hep; lia).
    assert (A6 : - 2 ^ 2200 < Z.rem (fval p) (2 ^ 2200) < 2 ^ 2200) by (clear - Hrb2; lia).
    exact (roundtrip_error_arith s ns (fval y) (fval x) sec R (fval p) ns' _ A1 Hns A2 A3 Hqr A4 A5 Hqr2 A6).
Qed.

(** [_float_to_second_nsec] on any valid float: [int()] raises on an
    infinity ([OverflowError]) and on a NaN ([ValueError]); on a finite
    float it is the specification's formula. *)
Lemma float_to_second_nsec_eq (x : float) : valid_binary prec emax x = true ->
  _float_to_second_nsec (PFloat x) =
  match x with
  | S754_infinity _ => Raise OverflowError
  | S754_nan => Raise ValueError
  | _ => Ok (from_float_seconds_spec x)
  end.
Proof.
  intros Hv. destruct x as [sg|sg| |sg m e].
  - destruct sg; reflexivity.
  - reflexivity.
  - reflexivity.
  - destruct (float_to_second_nsec_finite sg m e Hv) as [n [_ [Hi Heq]]].
    rewrite Heq. unfold from_float_seconds_spec. rewrite trunc_value_finite.
    rewrite (int_of_float_trunc _ _ Hi). reflexivity.
Qed.

(** C7 (amended). The DurationCodec is the specification's formulas
    evaluated in binary64 wherever the code returns: [_second_nsec_to_float
    (s, ns)] is [fl(fl(s) + fl(fl(ns) * 1e-9))] when [float(ns)] and
    [float(s)] are finite and raises [OverflowError] otherwise; for every
    valid float [x], [_float_to_second_nsec x] is
    [(trunc x, trunc(fl(fl(x - fl(trunc x)) * 1e9)))] when [x] is finite
    ([trunc] the truncation toward zero of the exact value), raises
    [OverflowError] on an infinity and [ValueError] on a NaN. *)
Theorem codec_matches_spec_formulas (s ns : Z) (x : float) :
  valid_binary prec emax x = true ->
  _second_nsec_to_float (s, ns) =
    (if float_is_finite (binary_normalize prec emax ns 0 false)
        && float_is_finite (binary_normalize prec emax s 0 false)
     then Ok (to_float_seconds_spec (s, ns)) else Raise OverflowError) /\
  _float_to_second_nsec (PFloat x) =
    match x with
    | S754_infinity _ => Raise OverflowError
    | S754_nan => Raise ValueError
    | _ => Ok (from_float_seconds_spec x)
    end.
Proof.
  intros Hv. split.
  - unfold _second_nsec_to_float, to_float_seconds_spec, float_of_int. cbn [fst snd].
    destruct (binary_normalize prec emax ns 0 false); cbn [float_is_finite andb mbind result_bind];
      try reflexivity;
      destruct (binary_normalize prec emax s 0 false); reflexivity.
  - apply float_to_second_nsec_eq. exact Hv.
Qed.

Lemma codec_matches_spec_formulas_witness :
  valid_binary prec emax (S754_finite false 6755399441055744 (-52)) = true /\
  _second_nsec_to_float (1, 500000000) =
    (if float_is_finite (binary_normalize prec emax 500000000 0 false)
        && float_is_finite (binary_normalize prec emax 1 0 false)
     then Ok (to_float_seconds_spec (1, 500000000)) else Raise OverflowError) /\
  _float_to_second_nsec (PFloat (S754_finite false 6755399441055744 (-52))) =
    Ok (from_float_seconds_spec (S754_finite false 6755399441055744 (-52))).
Proof.
  split; [reflexivity|].
  apply (codec_matches_spec_formulas 1 500000000 (S754_finite false 6755399441055744 (-52))).
  reflexivity.
Defined.

(** C7 counterexample: [inf] and [nan] are floats for which
    [_float_to_second_nsec] raises ([OverflowError], [ValueError]), and
    [(2^1024, 0)] is a Duration for which [_second_nsec_to_float] raises
    [OverflowError]. *)
Lemma codec_nonfinite_counterexample :
  _float_to_second_nsec (PFloat (S754_infinity false)) = Raise OverflowError /\
  _float_to_second_nsec (PFloat (S754_infinity true)) = Raise OverflowError /\
  _float_to_second_nsec (PFloat S754_nan) = Raise ValueError /\
  _second_nsec_to_float (2 ^ 1024, 0) = Raise OverflowError.
Proof. vm_compute. repeat split. Qed.

(** C8 (amended). For a Duration whose seconds are below [2^34] in
    absolute value and [0 <= ns < 10^9], the round trip through a float
    returns a Duration whose total in nanoseconds differs from the input's
    by at most 1000 (one microsecond), and it is exact when the seconds
    are zero. *)
Theorem roundtrip_within_one_microsecond (s ns : Z) :
  Z.abs s < 2 ^ 34 -> 0 <= ns < 10 ^ 9 ->
  exists s' ns', roundtrip (s, ns) = Ok (s', ns') /\
    Z.abs (s' * 10 ^ 9 + ns' - (s * 10 ^ 9 + ns)) <= 1000 /\
    (s = 0 -> s' = 0 /\ ns' = ns).
Proof.
  intros Hs Hns.
  destruct (roundtrip_error s ns Hs Hns) as [s' [ns' [Heq Hb]]].
  exists s', ns'. split; [exact Heq|]. split; [exact Hb|].
  intros ->. rewrite (roundtrip_zero_seconds ns Hns) in Heq.
  injection Heq as <- <-. split; reflexivity.
Qed.

Lemma roundtrip_within_one_microsecond_witness :
  Z.abs 13537633686 < 2 ^ 34 /\ 0 <= 678013801 < 10 ^ 9 /\
  exists s' ns', roundtrip (13537633686, 678013801) = Ok (s', ns') /\
    Z.abs (s' * 10 ^ 9 + ns' - (13537633686 * 10 ^ 9 + 678013801)) <= 1000 /\
    (13537633686 = 0 -> s' = 0 /\ ns' = 678013801).
Proof.
  split; [lia|]. split; [lia|].
  apply roundtrip_within_one_microsecond; lia.
Defined.

(** C8 counterexample: one second and one microsecond (a multiple of
    1000 nanoseconds) comes back one nanosecond short; above [2^34]
    seconds the error exceeds a microsecond ([1907] nanoseconds at
    [29483911268] s), and at [2^53] seconds the nanoseconds are lost. *)
Lemma roundtrip_counterexample :
  roundtrip (1, 1000) = Ok (1, 999) /\
  roundtrip (29483911268, 780408858) = Ok (29483911268, 780406951) /\
  roundtrip (2 ^ 53, 999999999) = Ok (2 ^ 53, 0).
Proof. split; [|split]; vm_compute; reflexivity. Qed.

(** C9 (amended). For every valid float [x]: on an infinity
    [_float_to_second_nsec] raises [OverflowError], on a NaN [ValueError];
    on a finite float it returns [(sec, ns)] with [sec] the truncation
    toward zero of [x] and [ns] the truncation toward zero of
    [fl(fl(x - fl(sec)) * 1e9)], and [ns] carries the sign of the input:
    [0 <= ns < 10^9] when the sign bit is clear, [-10^9 < ns <= 0] when it
    is set. *)
Theorem float_to_second_nsec_nsec_range (x : float) :
  valid_binary prec emax x = true ->
  match x with
  | S754_infinity _ => _float_to_second_nsec (PFloat x) = Raise OverflowError
  | S754_nan => _float_to_second_nsec (PFloat x) = Raise ValueError
  | _ => exists sec ns, _float_to_second_nsec (PFloat x) = Ok (sec, ns) /\
      sec = trunc_value x /\
      ns = trunc_value (fmul (fsub x (binary_normalize prec emax sec 0 false)) f_1e9) /\
      (if float_sign x then - 10 ^ 9 < ns <= 0 else 0 <= ns < 10 ^ 9)
  end.
Proof.
  intros Hv. pose proof (float_to_second_nsec_eq x Hv) as Heq.
  destruct x as [sg|sg| |sg m e]; try exact Heq.
  - exists 0, 0. rewrite Heq.
    destruct sg; (split; [reflexivity|]; split; [reflexivity|]; split; [reflexivity|]; cbn [float_sign]; lia).
  - destruct (float_to_second_nsec_finite sg m e Hv) as [n [Hn [_ Heq']]].
    rewrite Heq in Heq'.
    set (r := from_float_seconds_spec (S754_finite sg m e)) in Heq', Heq |- *.
    assert (Hr : r = (fst r, snd r)) by (destruct r; reflexivity).
    exists (fst r), (snd r). split; [rewrite Heq, <- Hr; reflexivity|].
    split; [reflexivity|]. split; [reflexivity|].
    clearbody r. injection Heq' as ->. cbn [snd].
    cbn [float_sign]. destruct sg; lia.
Qed.

Lemma float_to_second_nsec_nsec_range_witness :
  valid_binary prec emax (S754_finite true 6755399441055744 (-52)) = true /\
  exists sec ns,
    _float_to_second_nsec (PFloat (S754_finite true 6755399441055744 (-52))) = Ok (sec, ns) /\
    sec = trunc_value (S754_finite true 6755399441055744 (-52)) /\
    ns = trunc_value (fmul (fsub (S754_finite true 6755399441055744 (-52))
                                 (binary_normalize prec emax sec 0 false)) f_1e9) /\
    (if float_sign (S754_finite true 6755399441055744 (-52))
     then - 10 ^ 9 < ns <= 0 else 0 <= ns < 10 ^ 9).
Proof.
  split; [reflexivity|].
  exact (float_to_second_nsec_nsec_range (S754_finite true 6755399441055744 (-52)) eq_refl).
Defined.

(** C9 counterexample: [-0.5] gives [(0, -500000000)], outside
    [0 <= ns < 10^9]; [inf] and [nan] raise. *)
Lemma float_to_second_nsec_negative_counterexample :
  _float_to_second_nsec (PFloat (S754_finite true 4503599627370496 (-53))) = Ok (0, -500000000) /\
  _float_to_second_nsec (PFloat (S754_infinity false)) = Raise OverflowError /\
  _float_to_second_nsec (PFloat S754_nan) = Raise ValueError.
Proof. split; [|split]; vm_compute; reflexivity. Qed.

(* ================================================================== *)
(** * Further properties of the wrapper *)

Lemma binary_round_int_nonzero (s : bool) (p : positive) :
  match binary_round prec emax s p 0 with
  | S754_zero _ | S754_nan => False
  | _ => True
  end.
Proof.
  unfold binary_round. rewrite Z.add_0_r.
  set (F := fexp prec emax (Zpos (digits2_pos p))).
  unfold shl_align. rewrite Z.sub_0_r.
  destruct F as [|d|d] eqn:EF.
  - rewrite round_aux_eq. cbv zeta. rewrite Z.add_0_r. fold F. rewrite EF. cbn.
    destruct (0 <=? emax - prec); exact I.
  - rewrite round_aux_eq. cbv zeta. rewrite Z.add_0_r. fold F. rewrite EF. cbn [Z.leb Z.compare].
    assert (Hd : Zpos d <= Zpos (digits2_pos p) - 1)
      by (rewrite <- EF; subst F; unfold fexp, emin, prec, emax; lia).
    pose proof (digits2_pos_bounds p) as [Hp _].
    assert (H1 : 1 <= Zpos p / 2 ^ (Zpos d - 0)).
    { apply Z.div_le_lower_bound; [apply Z.pow_pos_nonneg; lia|].
      rewrite Z.sub_0_r, Z.mul_1_r.
      pose proof (Z.pow_le_mono_r 2 (Zpos d) (Zpos (digits2_pos p) - 1) ltac:(lia) Hd). lia. }
    pose proof (round_div_bounds (Zpos p) (Zpos d - 0) ltac:(lia) ltac:(lia)) as [[Hq _] _].
    unfold mk_round.
    destruct (Z.eqb_spec (round_div (Zpos p) (Zpos d - 0)) 0); [lia|].
    destruct (_ <? _); destruct (_ <=? _); exact I.
  - rewrite round_aux_eq. cbv zeta.
    rewrite (digits2_pos_shift (Pos.iter xO p d) p (Zpos d)) by (lia || apply pos_iter_xO).
    replace (fexp prec emax (Zpos (digits2_pos p) + Zpos d + Zneg d))
      with (fexp prec emax (Zpos (digits2_pos p))) by (f_equal; lia).
    fold F. rewrite EF, Z.leb_refl.
    destruct (Zneg d <=? emax - prec); exact I.
Qed.

(** [float(n)] is [+0.0] or a finite non-zero float, or it raises. *)
Lemma float_of_int_shape (z : Z) :
  float_of_int z = Raise OverflowError \/
  float_of_int z = Ok (S754_zero false) \/
  exists s m e, float_of_int z = Ok (S754_finite s m e).
Proof.
  unfold float_of_int. destruct z as [|p|p]; [right; left; reflexivity| |].
  - change (binary_normalize prec emax (Zpos p) 0 false) with (binary_round prec emax false p 0).
    pose proof (binary_round_int_nonzero false p) as H.
    destruct (binary_round prec emax false p 0); try contradiction; [left; reflexivity | right; right; eauto].
  - change (binary_normalize prec emax (Zneg p) 0 false) with (binary_round prec emax true p 0).
    pose proof (binary_round_int_nonzero true p) as H.
    destruct (binary_round prec emax true p 0); try contradiction; [left; reflexivity | right; right; eauto].
Qed.

Lemma fmul_zero_1em9 : fmul (S754_zero false) f_1em9 = S754_zero false.
Proof. reflexivity. Qed.

Lemma second_nsec_to_float_whole_eq (s : Z) :
  _second_nsec_to_float (s, 0) = float_of_int s.
Proof.
  unfold _second_nsec_to_float. cbn [fst snd].
  change (float_of_int 0) with (Ok (S754_zero false) : result float).
  cbn [mbind result_bind]. rewrite fmul_zero_1em9.
  destruct (float_of_int_shape s) as [-> | [-> | (sg & m & e & ->)]]; reflexivity.
Qed.

(** X1. [_float_to_second_nsec] on a Python int [n] (as [disarm] and
    [set(5)] pass it) returns [(n, 0)] for every [n]: the fractional part
    [(n - n) * 1e9] is [0.0]. *)
Theorem float_to_second_nsec_int (n : Z) : _float_to_second_nsec (PInt n) = Ok (n, 0).
Proof.
  unfold _float_to_second_nsec. cbn [py_int mbind result_bind py_sub_int].
  rewrite Z.sub_diag. reflexivity.
Qed.

Lemma fsub_self (s : bool) (m : positive) (e : Z) :
  fsub (S754_finite s m e) (S754_finite s m e) = S754_zero false.
Proof.
  unfold fsub, SFsub, SFadd, SFopp. rewrite Z.min_id.
  destruct (shl_align m e e) as [m' e'].
  destruct s; cbn [negb Bool.eqb cond_Zopp fst];
    [replace (- Zpos m' - - Zpos m') with 0 by lia | replace (Zpos m' - Zpos m') with 0 by lia];
    reflexivity.
Qed.

Lemma valid_of_canonical (s : bool) (m : positive) (e : Z) :
  fexp prec emax (Zpos (digits2_pos m) + e) = e -> e <= emax - prec ->
  valid_binary prec emax (S754_finite s m e) = true.
Proof.
  intros H1 H2. unfold valid_binary, bounded, canonical_mantissa.
  rewrite Bool.andb_true_iff, Z.eqb_eq, Z.leb_le. tauto.
Qed.

(** A non-zero int below [2^53] converts exactly: [int(float(z)) == z]. *)
Lemma float_of_int_exact (z : Z) : 0 < Z.abs z < 2 ^ 53 ->
  exists s m e, float_of_int z = Ok (S754_finite s m e) /\
    valid_binary prec emax (S754_finite s m e) = true /\
    int_of_float (S754_finite s m e) = Ok z /\
    binary_normalize prec emax z 0 false = S754_finite s m e.
Proof.
  intros Hz.
  assert (Hgen : forall (sg : bool) (p : positive), Zpos p < 2 ^ 53 ->
    exists m e, binary_round prec emax sg p 0 = S754_finite sg m e /\
      valid_binary prec emax (S754_finite sg m e) = true /\
      Z.shiftl (Zpos m) e = Zpos p).
  { intros sg p Hp.
    assert (HD : Zpos (digits2_pos p) <= prec) by (apply digits2_pos_le; unfold prec; lia).
    pose proof (digits2_pos_bounds p) as [HD1 _].
    set (F := fexp prec emax (Zpos (digits2_pos p) + 0)).
    assert (HF : F = Zpos (digits2_pos p) - 53)
      by (subst F; unfold fexp, emin, prec, emax in *; lia).
    destruct (binary_round_exact sg p p 0 0 ltac:(lia) ltac:(lia) HD
                ltac:(unfold emin, prec, emax; lia)
                ltac:(fold F; unfold emax, prec in *; lia)) as [m' [Hm' Hr]].
    fold F in Hm', Hr. exists m', F.
    split; [exact Hr|]. split.
    - apply valid_of_canonical; [| unfold emax, prec in *; lia].
      rewrite (digits2_pos_shift m' p (0 - F)) by (exact Hm' || (unfold prec in *; lia)). subst F. f_equal. lia.
    - rewrite shiftl_nonpos by (unfold prec in *; lia). rewrite Hm'. replace (- F) with (0 - F) by lia.
      apply Z.div_mul. apply Z.pow_nonzero; unfold prec in *; lia. }
  destruct z as [|p|p]; [lia| |].
  - destruct (Hgen false p ltac:(lia)) as (m & e & Hr & Hv & Hs).
    exists false, m, e.
    change (binary_normalize prec emax (Zpos p) 0 false) with (binary_round prec emax false p 0).
    unfold float_of_int.
    change (binary_normalize prec emax (Zpos p) 0 false) with (binary_round prec emax false p 0).
    rewrite Hr. repeat split; try reflexivity; try exact Hv.
    cbn [int_of_float]. rewrite Hs. reflexivity.
  - destruct (Hgen true p ltac:(lia)) as (m & e & Hr & Hv & Hs).
    exists true, m, e.
    unfold float_of_int.
    change (binary_normalize prec emax (Zneg p) 0 false) with (binary_round prec emax true p 0).
    rewrite Hr. repeat split; try reflexivity; try exact Hv.
    cbn [int_of_float]. rewrite Hs. reflexivity.
Qed.

(** X3. A whole number of seconds [s] with [|s| < 2^53] survives the
    round trip through a float exactly: [(s, 0)] comes back as [(s, 0)]. *)
Theorem roundtrip_whole_seconds (s : Z) : Z.abs s < 2 ^ 53 -> roundtrip (s, 0) = Ok (s, 0).
Proof.
  intros Hs. unfold roundtrip. rewrite second_nsec_to_float_whole_eq.
  destruct (Z.eq_dec s 0) as [->|Hs0]; [vm_compute; reflexivity|].
  destruct (float_of_int_exact s ltac:(lia)) as (sg & m & e & Hf & Hv & Hi & Hn).
  rewrite Hf. cbn [mbind result_bind].
  destruct (float_to_second_nsec_finite sg m e Hv) as [n [_ [Hn9 Heq]]].
  cbn [int_of_float] in Hi. injection Hi as Hi. rewrite Hi in Hn9, Heq.
  rewrite Hn, fsub_self in Hn9.
  change (int_of_float (fmul (S754_zero false) f_1e9)) with (Ok 0 : result Z) in Hn9.
  injection Hn9 as Hn9. rewrite Heq, <- Hn9. reflexivity.
Qed.

Lemma with_kern_self (w : world) : with_kern w (w_kern w) = w.
Proof. destruct w; reflexivity. Qed.

Lemma get_precise_live (w : world) (self tid : Z) (kt : ktimer) :
  w_heap w !! self = Some {| timerid := Some tid |} ->
  k_timers (w_kern w) !! tid = Some kt ->
  get_precise self w = (w, Ok (pairs_of (report kt))).
Proof.
  intros Hh Ht. unfold get_precise.
  rewrite (bind_ok _ _ w w tid) by (apply get_timerid_ok; exact Hh).
  rewrite (bind_ok _ _ w w (0, report kt)); [reflexivity|].
  rewrite <- (with_kern_self w) at 2.
  apply librt_call_ok; [unfold sys_timer_gettime; rewrite Ht; reflexivity | lia].
Qed.

Lemma c_long_small (z : Z) : - 2 ^ 63 <= z < 2 ^ 63 -> c_long z = z.
Proof.
  intros Hz. unfold c_long.
  destruct (Z.le_gt_cases 0 z).
  - rewrite Z.mod_small by lia. destruct (Z.leb_spec (2 ^ 63) z); lia.
  - replace (z mod 2 ^ 64) with (z + 2 ^ 64)
      by (apply (Z.mod_unique z (2 ^ 64) (-1)); lia).
    destruct (Z.leb_spec (2 ^ 63) (z + 2 ^ 64)); lia.
Qed.

Lemma c_long_periodic (z j : Z) : c_long (z + 2 ^ 64 * j) = c_long z.
Proof. unfold c_long. rewrite (Z.mul_comm (2 ^ 64) j), Z.mod_add by lia. reflexivity. Qed.

Lemma c_int32_periodic (z j : Z) : c_int32 (z + 2 ^ 32 * j) = c_int32 z.
Proof. unfold c_int32. rewrite (Z.mul_comm (2 ^ 32) j), Z.mod_add by lia. reflexivity. Qed.



Lemma set_precise_ok (w : world) (self tid : Z) (kt : ktimer) (v i : Z * Z) (flags : Z) k' :
  w_heap w !! self = Some {| timerid := Some tid |} ->
  sys_timer_settime tid (c_int32 flags) (mk_setval v i) (w_kern w) = (k', (0, report kt)) ->
  set_precise self v i flags w = (with_kern w k', Ok (pairs_of (report kt))).
Proof.
  intros Hh Hs. unfold set_precise.
  rewrite (bind_ok _ _ w w tid) by (apply get_timerid_ok; exact Hh).
  rewrite (bind_ok _ _ w (with_kern w k') (0, report kt)); [reflexivity|].
  apply librt_call_ok; [exact Hs | lia].
Qed.


(** X5. On a live timer, [set_precise((0, 0), interval)] with a valid
    interval disarms it whatever the interval: the call returns the
    previous setting and [get_precise] then returns all zeros. *)
Theorem set_precise_zero_value_disarms (w : world) (self tid : Z) (kt : ktimer)
    (is_ in_ flags : Z) :
  w_heap w !! self = Some {| timerid := Some tid |} ->
  k_timers (w_kern w) !! tid = Some kt ->
  0 <= is_ < 2 ^ 63 -> 0 <= in_ < 10 ^ 9 ->
  let '(w1, r) := set_precise self (0, 0) (is_, in_) flags w in
  r = Ok (pairs_of (report kt)) /\
  get_precise self w1 = (w1, Ok ((0, 0), (0, 0))).
Proof.
  intros Hh Ht His Hin.
  assert (Hs : sys_timer_settime tid (c_int32 flags) (mk_setval (0, 0) (is_, in_)) (w_kern w) =
               (set_timers (w_kern w) (<[tid := ktimer_with kt 0 0]> (k_timers (w_kern w))),
                (0, report kt))).
  { unfold sys_timer_settime. rewrite Ht. unfold mk_setval. rewrite !c_long_small by lia.
    unfold timespec_valid, NSEC_PER_SEC. cbn [it_value it_interval tv_sec tv_nsec].
    replace ((0 <=? is_) && (0 <=? in_) && (in_ <? 1000000000)) with true
      by (symmetry; repeat rewrite Bool.andb_true_iff; rewrite !Z.leb_le, !Z.ltb_lt; lia).
    reflexivity. }
  rewrite (set_precise_ok w self tid kt _ _ flags _ Hh Hs).
  split; [reflexivity|].
  rewrite (get_precise_live _ self tid (ktimer_with kt 0 0)); [reflexivity | exact Hh |].
  apply lookup_insert_eq.
Qed.

(** X6. When [timer_settime] rejects the new setting, [set_precise]
    raises ([NameError('os')]), the kernel's timer table is unchanged and
    [get_precise] still reports the setting the timer had before. *)
Theorem set_precise_rejected_keeps_setting (w : world) (self tid : Z) (kt : ktimer)
    (v i : Z * Z) (flags : Z) :
  w_heap w !! self = Some {| timerid := Some tid |} ->
  k_timers (w_kern w) !! tid = Some kt ->
  timespec_valid (it_interval (mk_setval v i)) && timespec_valid (it_value (mk_setval v i)) = false ->
  let '(w1, r) := set_precise self v i flags w in
  r = Raise (NameError "os") /\
  k_timers (w_kern w1) = k_timers (w_kern w) /\
  get_precise self w1 = (w1, Ok (pairs_of (report kt))).
Proof.
  intros Hh Ht Hv. unfold set_precise at 1.
  rewrite (bind_ok _ _ w w tid) by (apply get_timerid_ok; exact Hh).
  rewrite (bind_raise _ _ w (with_kern w (set_errno (w_kern w) EINVAL)) (NameError "os"));
    [| apply (librt_call_fail _ _ _ zero_itimerspec); apply (settime_invalid _ _ _ _ kt Ht Hv)].
  split; [reflexivity|]. split; [reflexivity|].
  apply (get_precise_live _ self tid kt); [exact Hh | exact Ht].
Qed.

(** X7. [set] converts [value] and then [interval] before any system
    call: an infinite or NaN [value], or a convertible [value] with an
    infinite or NaN [interval], raises [OverflowError] or [ValueError] and
    leaves the whole state (kernel, objects) unchanged. *)
Theorem set_nonfinite_raises_before_call (w : world) (self : Z) (v : pynum) (sv : Z * Z)
    (i : pynum) (flags : Z) (s : bool) :
  _float_to_second_nsec v = Ok sv ->
  set self (PFloat (S754_infinity s)) i flags w = (w, Raise OverflowError) /\
  set self (PFloat S754_nan) i flags w = (w, Raise ValueError) /\
  set self v (PFloat (S754_infinity s)) flags w = (w, Raise OverflowError) /\
  set self v (PFloat S754_nan) flags w = (w, Raise ValueError).
Proof.
  intros Hv. unfold set. rewrite !lift_bind, Hv, !lift_bind.
  repeat split; reflexivity.
Qed.

(** X8. After [__del__] has deleted a live timer, the object keeps the
    released handle: [get_precise], [getoverrun] and [set_precise] on it
    all raise [NameError('os')]. *)
Theorem methods_after_del_raise (w : world) (self tid : Z) (kt : ktimer) :
  w_heap w !! self = Some {| timerid := Some tid |} -> tid <> 0 ->
  k_timers (w_kern w) !! tid = Some kt ->
  let w1 := fst (PosixTimer___del__ self w) in
  snd (get_precise self w1) = Raise (NameError "os") /\
  snd (getoverrun self w1) = Raise (NameError "os") /\
  (forall v i flags, snd (set_precise self v i flags w1) = Raise (NameError "os")).
Proof.
  intros Hh Hz Ht w1.
  destruct (del_effect w self tid Hh Hz) as (Hh1 & _ & Ht1). fold w1 in Hh1, Ht1.
  rewrite <- Hh1 in Hh.
  repeat split; [| | intros v i flags].
  - unfold get_precise. rewrite (bind_ok _ _ w1 w1 tid) by (apply get_timerid_ok; exact Hh).
    erewrite bind_raise; [reflexivity|].
    apply (librt_call_fail _ _ (set_errno (w_kern w1) EINVAL) zero_itimerspec). unfold sys_timer_gettime. rewrite Ht1. reflexivity.
  - unfold getoverrun. rewrite (bind_ok _ _ w1 w1 tid) by (apply get_timerid_ok; exact Hh).
    erewrite bind_raise; [reflexivity|].
    apply (librt_call_fail _ _ (set_errno (w_kern w1) EINVAL) tt). unfold sys_timer_getoverrun. rewrite Ht1. reflexivity.
  - unfold set_precise. rewrite (bind_ok _ _ w1 w1 tid) by (apply get_timerid_ok; exact Hh).
    erewrite bind_raise; [reflexivity|].
    apply (librt_call_fail _ _ (set_errno (w_kern w1) EINVAL) zero_itimerspec). unfold sys_timer_settime. rewrite Ht1. reflexivity.
Qed.






(** X12. The ctypes conversions wrap silently: [set_precise] depends on its
    four time fields only modulo [2^64] ([c_long]) and on [flags] modulo
    [2^32] ([c_int32]), and [PosixTimer(clockid)] on [clockid] modulo
    [2^32]. *)
Theorem posixtimer_ctypes_wraparound (self vs vn is_ in_ flags clockid a b c d f g : Z) :
  set_precise self (vs + 2 ^ 64 * a, vn + 2 ^ 64 * b) (is_ + 2 ^ 64 * c, in_ + 2 ^ 64 * d)
    (flags + 2 ^ 32 * f) = set_precise self (vs, vn) (is_, in_) flags /\
  construct self (clockid + 2 ^ 32 * g) = construct self clockid.
Proof.
  split.
  - unfold set_precise, mk_setval. rewrite !c_long_periodic, c_int32_periodic. reflexivity.
  - unfold construct, PosixTimer___init__. rewrite c_int32_periodic. reflexivity.
Qed.





(** X2. [_second_nsec_to_float((s, 0))] is exactly [float(s)] for every
    int [s], including the [OverflowError] of [float(s)]; adding
    [0 * 1e-9] never changes the value or its sign. *)
Theorem second_nsec_to_float_whole_seconds (s : Z) :
  _second_nsec_to_float (s, 0) = float_of_int s.
Proof. apply second_nsec_to_float_whole_eq. Qed.

Lemma roundtrip_whole_seconds_witness :
  Z.abs (-86400) < 2 ^ 53 /\ roundtrip (-86400, 0) = Ok (-86400, 0).
Proof. split; [lia|]. apply roundtrip_whole_seconds. lia. Defined.


Lemma set_precise_zero_value_disarms_witness :
  (w_heap armed_world !! 4096 = Some {| timerid := Some scenario_handle |} /\
   k_timers (w_kern armed_world) !! scenario_handle = Some armed_kt) /\
  let '(w1, r) := set_precise 4096 (0, 0) (3, 0) 0 armed_world in
  r = Ok (pairs_of (report armed_kt)) /\
  get_precise 4096 w1 = (w1, Ok ((0, 0), (0, 0))).
Proof.
  split; [split; vm_compute; reflexivity |].
  apply (set_precise_zero_value_disarms armed_world 4096 scenario_handle armed_kt 3 0 0);
    [vm_compute; reflexivity | vm_compute; reflexivity | lia | lia].
Defined.

Lemma set_precise_rejected_keeps_setting_witness :
  (w_heap armed_world !! 4096 = Some {| timerid := Some scenario_handle |} /\
   k_timers (w_kern armed_world) !! scenario_handle = Some armed_kt /\
   timespec_valid (it_interval (mk_setval (0, 1000000000) (0, 0))) &&
   timespec_valid (it_value (mk_setval (0, 1000000000) (0, 0))) = false) /\
  let '(w1, r) := set_precise 4096 (0, 1000000000) (0, 0) 0 armed_world in
  r = Raise (NameError "os") /\
  k_timers (w_kern w1) = k_timers (w_kern armed_world) /\
  get_precise 4096 w1 = (w1, Ok (pairs_of (report armed_kt))).
Proof.
  split; [split; [|split]; vm_compute; reflexivity |].
  apply (set_precise_rejected_keeps_setting armed_world 4096 scenario_handle armed_kt (0, 1000000000) (0, 0) 0);
    vm_compute; reflexivity.
Defined.

Lemma set_nonfinite_raises_before_call_witness :
  _float_to_second_nsec (PInt 5) = Ok (5, 0) /\
  set 4096 (PFloat (S754_infinity false)) (PInt 0) 0 armed_world = (armed_world, Raise OverflowError) /\
  set 4096 (PFloat S754_nan) (PInt 0) 0 armed_world = (armed_world, Raise ValueError) /\
  set 4096 (PInt 5) (PFloat (S754_infinity false)) 0 armed_world = (armed_world, Raise OverflowError) /\
  set 4096 (PInt 5) (PFloat S754_nan) 0 armed_world = (armed_world, Raise ValueError).
Proof.
  split; [reflexivity|].
  apply (set_nonfinite_raises_before_call armed_world 4096 (PInt 5) (5, 0) (PInt 0) 0 false).
  reflexivity.
Defined.

Lemma methods_after_del_raise_witness :
  (w_heap armed_world !! 4096 = Some {| timerid := Some scenario_handle |} /\ scenario_handle <> 0 /\
   k_timers (w_kern armed_world) !! scenario_handle =
     Some {| kt_clock := 1; kt_sival := 4096; kt_value := 5000000000; kt_interval := 0;
             kt_overrun := 0 |}) /\
  let w1 := fst (PosixTimer___del__ 4096 armed_world) in
  snd (get_precise 4096 w1) = Raise (NameError "os") /\
  snd (getoverrun 4096 w1) = Raise (NameError "os") /\
  (forall v i flags, snd (set_precise 4096 v i flags w1) = Raise (NameError "os")).
Proof.
  split; [split; [vm_compute; reflexivity | split; [vm_compute; discriminate | vm_compute; reflexivity]] |].
  apply (methods_after_del_raise armed_world 4096 scenario_handle
           {| kt_clock := 1; kt_sival := 4096; kt_value := 5000000000; kt_interval := 0;
              kt_overrun := 0 |}); [vm_compute; reflexivity | vm_compute; discriminate | vm_compute; reflexivity].
Defined.

(** What a [timer_create] call does to the timer table: on success one
    fresh, disarmed timer under the handle glibc derives from its
    allocation; on failure nothing. *)
Lemma timer_create_cases (clockid sival : Z) (k k' : kernel) (v : Z) (out : option Z) :
  sys_timer_create clockid sival k = (k', (v, out)) ->
  (v = 0 /\ out = Some (timer_to_timerid (k_next k)) /\
   k_timers k' = <[timer_to_timerid (k_next k) :=
                    {| kt_clock := clockid; kt_sival := sival; kt_value := 0;
                       kt_interval := 0; kt_overrun := 0 |}]> (k_timers k)) \/
  (v = -1 /\ out = None /\ k_timers k' = k_timers k).
Proof.
  unfold sys_timer_create, sys_fail, new_timer. intros H.
  repeat match type of H with
         | context [match ?c with _ => _ end] => destruct c
         end;
    injection H as <- <- <-; (left; split; [reflexivity | split; reflexivity]) || (right; auto).
Qed.

Lemma timer_create_keeps (clockid sival : Z) (k k' : kernel) (r : Z * option Z) :
  sys_timer_create clockid sival k = (k', r) ->
  k_now k' = k_now k /\ k_pending k' = k_pending k.
Proof.
  unfold sys_timer_create, sys_fail, new_timer. intros H.
  repeat match type of H with
         | context [match ?c with _ => _ end] => destruct c
         end;
    injection H as <- _; split; reflexivity.
Qed.

Lemma timer_to_timerid_nonzero (p : Z) : timer_to_timerid p <> 0.
Proof.
  intros H.
  assert (Hb : Z.testbit (timer_to_timerid p) 63 = true).
  { unfold timer_to_timerid. rewrite Z.lor_spec, Z.pow2_bits_true by lia. reflexivity. }
  rewrite H in Hb. discriminate.
Qed.

(** [PosixTimer(clockid)] as one state transformer. *)
Lemma construct_unfold (w : world) (self clockid : Z) :
  construct self clockid w =
  let w0 := with_heap w (<[self := {| timerid := Some 0 |}]> (w_heap w)) in
  let '(k', (v, out)) := sys_timer_create (c_int32 clockid) self (w_kern w) in
  let w1 := with_kern w0 k' in
  let w2 := match out with
            | Some id => with_heap w1 (<[self := {| timerid := Some id |}]> (w_heap w1))
            | None => w1
            end in
  (_ ← _error_handler v; mret tt : PyM unit) w2.
Proof.
  unfold construct, PosixTimer___init__.
  unfold mbind at 1, PyM_bind at 1. cbn [fst snd].
  unfold mbind at 1, PyM_bind at 1, set_timerid. cbn [fst snd w_heap w_kern with_heap].
  rewrite insert_insert_eq. reflexivity.
Qed.

(** X15. When [timer_create] succeeds, [PosixTimer(clockid)] returns
    normally with the new handle, which is non-null, stored in
    [self.timerid]; the kernel table gains exactly one timer under that
    handle, disarmed, on the [c_int32] of [clockid], with the object's
    address as [sival_ptr]. *)
Theorem construct_creates_disarmed_timer (w : world) (self clockid : Z) (k' : kernel) (id : Z) :
  sys_timer_create (c_int32 clockid) self (w_kern w) = (k', (0, Some id)) ->
  construct self clockid w =
    ({| w_kern := k'; w_heap := <[self := {| timerid := Some id |}]> (w_heap w);
        w_log := w_log w |}, Ok tt) /\
  id <> 0 /\
  k_timers k' = <[id := {| kt_clock := c_int32 clockid; kt_sival := self; kt_value := 0;
                           kt_interval := 0; kt_overrun := 0 |}]> (k_timers (w_kern w)).
Proof.
  intros Hc.
  destruct (timer_create_cases _ _ _ _ _ _ Hc) as [[_ [Hid Ht]] | [? _]]; [|discriminate].
  injection Hid as Hid. split; [|split].
  - rewrite construct_unfold. cbn zeta. rewrite Hc. cbn. rewrite insert_insert_eq. reflexivity.
  - rewrite Hid. apply timer_to_timerid_nonzero.
  - rewrite Ht, Hid. reflexivity.
Qed.

(** X16. When [timer_create] fails (for instance [EOPNOTSUPP] for
    CLOCK_MONOTONIC_RAW), [PosixTimer(clockid)] raises [NameError('os')],
    [self.timerid] keeps the null handle [c_void_p(0)], and the kernel
    table is unchanged. *)
Theorem construct_failure_creates_nothing (w : world) (self clockid : Z) (k' : kernel) :
  sys_timer_create (c_int32 clockid) self (w_kern w) = (k', (-1, None)) ->
  construct self clockid w =
    ({| w_kern := k'; w_heap := <[self := {| timerid := Some 0 |}]> (w_heap w);
        w_log := w_log w |}, Raise (NameError "os")) /\
  k_timers k' = k_timers (w_kern w).
Proof.
  intros Hc.
  destruct (timer_create_cases _ _ _ _ _ _ Hc) as [[? _] | [_ [_ Ht]]]; [discriminate|].
  split; [|exact Ht].
  rewrite construct_unfold. cbn zeta. rewrite Hc. reflexivity.
Qed.

(** X17. A timer created by [PosixTimer(clockid)] and armed by
    [set_precise((s, ns))] with a non-zero relative value notifies its own
    object: when no notification is pending and the clock reading is below
    [KTIME_MAX], an expiration followed by the notification thread runs
    [callback] on that object. *)
Theorem expiration_runs_owner_callback (w : world) (self clockid : Z) (k' : kernel) (id s ns : Z) :
  sys_timer_create (c_int32 clockid) self (w_kern w) = (k', (0, Some id)) ->
  k_pending (w_kern w) = [] -> 0 <= k_now (w_kern w) < KTIME_MAX ->
  0 <= s < 2 ^ 63 -> 0 <= ns < 10 ^ 9 -> (s, ns) <> (0, 0) ->
  let w1 := fst (construct self clockid w) in
  let w2 := fst (set_precise self (s, ns) (0, 0) 0 w1) in
  snd (run w2 [Expire id; Deliver]) = [Dispatched self].
Proof.
  intros Hc Hp Hnow Hs Hns Hnz w1 w2.
  destruct (timer_create_cases _ _ _ _ _ _ Hc) as [[_ [Hid Ht]] | [? _]]; [|discriminate].
  injection Hid as Hid.
  destruct (timer_create_keeps _ _ _ _ _ Hc) as [Hn' Hp'].
  assert (Hw1 : w1 = {| w_kern := k'; w_heap := <[self := {| timerid := Some id |}]> (w_heap w);
                        w_log := w_log w |}).
  { subst w1. rewrite construct_unfold. cbn zeta. rewrite Hc. cbn. rewrite insert_insert_eq. reflexivity. }
  set (kt := {| kt_clock := c_int32 clockid; kt_sival := self; kt_value := 0;
                kt_interval := 0; kt_overrun := 0 |}).
  assert (Hkt : k_timers k' !! id = Some kt) by (rewrite Ht, Hid; apply lookup_insert_eq).
  set (v := ktime_add_safe (k_now k') (timespec64_to_ktime {| tv_sec := s; tv_nsec := ns |}) - k_now k').
  assert (Hv : v <> 0).
  { assert (s <> 0 \/ ns <> 0) by (destruct (Z.eq_dec s 0); [destruct (Z.eq_dec ns 0)|]; subst; auto; congruence).
    subst v. unfold ktime_add_safe, timespec64_to_ktime, KTIME_SEC_MAX, KTIME_MAX, NSEC_PER_SEC in *.
    rewrite Hn'. cbn [tv_sec tv_nsec].
    destruct (Z.leb_spec ((2 ^ 63 - 1) / 1000000000) s); lia. }
  assert (Hset : sys_timer_settime id (c_int32 0) (mk_setval (s, ns) (0, 0)) (w_kern w1) =
                 (set_timers k' (<[id := ktimer_with kt v 0]> (k_timers k')), (0, report kt))).
  { rewrite Hw1. cbn [w_kern]. unfold sys_timer_settime. rewrite Hkt. unfold mk_setval.
    rewrite !c_long_small by lia.
    unfold timespec_valid, NSEC_PER_SEC. cbn [it_value it_interval tv_sec tv_nsec].
    replace ((0 <=? s) && (0 <=? ns) && (ns <? 1000000000)) with true
      by (symmetry; repeat rewrite Bool.andb_true_iff; rewrite !Z.leb_le, !Z.ltb_lt; lia).
    cbn [negb andb].
    replace ((s =? 0) && (ns =? 0)) with false
      by (symmetry; apply Bool.andb_false_iff; destruct (Z.eqb_spec s 0), (Z.eqb_spec ns 0);
          subst; auto; congruence).
    reflexivity. }
  assert (Hh1 : w_heap w1 !! self = Some {| timerid := Some id |}) by (rewrite Hw1; apply lookup_insert_eq).
  subst w2. rewrite (set_precise_ok w1 self id kt (s, ns) (0, 0) 0 _ Hh1 Hset). cbn [fst].
  unfold run, step. cbn [w_kern with_kern].
  unfold kernel_expire. cbn [k_timers set_timers]. rewrite lookup_insert_eq.
  cbn [kt_value ktimer_with]. replace (v =? 0) with false by (symmetry; apply Z.eqb_neq; exact Hv).
  cbn [set_pending set_timers k_pending kt_sival ktimer_with kt]. rewrite Hp', Hp. cbn [app].
  unfold callback_obj. cbn [w_heap with_kern]. rewrite Hh1. reflexivity.
Qed.

Lemma construct_creates_disarmed_timer_witness :
  sys_timer_create (c_int32 1) 4096 (w_kern world0) =
    (fst (sys_timer_create 1 4096 kernel0), (0, Some scenario_handle)) /\
  construct 4096 1 world0 =
    ({| w_kern := fst (sys_timer_create 1 4096 kernel0);
        w_heap := <[4096 := {| timerid := Some scenario_handle |}]> (w_heap world0);
        w_log := w_log world0 |}, Ok tt) /\
  scenario_handle <> 0 /\
  k_timers (fst (sys_timer_create 1 4096 kernel0)) =
    <[scenario_handle := {| kt_clock := c_int32 1; kt_sival := 4096; kt_value := 0;
                            kt_interval := 0; kt_overrun := 0 |}]> (k_timers (w_kern world0)).
Proof.
  split; [vm_compute; reflexivity|].
  apply construct_creates_disarmed_timer. vm_compute. reflexivity.
Defined.

Lemma construct_failure_creates_nothing_witness :
  sys_timer_create (c_int32 4) 4096 (w_kern world0) = (set_errno kernel0 EOPNOTSUPP, (-1, None)) /\
  construct 4096 4 world0 =
    ({| w_kern := set_errno kernel0 EOPNOTSUPP;
        w_heap := <[4096 := {| timerid := Some 0 |}]> (w_heap world0);
        w_log := w_log world0 |}, Raise (NameError "os")) /\
  k_timers (set_errno kernel0 EOPNOTSUPP) = k_timers (w_kern world0).
Proof.
  split; [vm_compute; reflexivity|].
  apply construct_failure_creates_nothing. vm_compute. reflexivity.
Defined.

Lemma expiration_runs_owner_callback_witness :
  sys_timer_create (c_int32 1) 4096 (w_kern world0) =
    (fst (sys_timer_create 1 4096 kernel0), (0, Some scenario_handle)) /\
  snd (run (fst (set_precise 4096 (5, 0) (0, 0) 0 (fst (construct 4096 1 world0))))
           [Expire scenario_handle; Deliver]) = [Dispatched 4096].
Proof.
  split; [vm_compute; reflexivity|].
  apply (expiration_runs_owner_callback world0 4096 1 (fst (sys_timer_create 1 4096 kernel0))
           scenario_handle 5 0);
    first [vm_compute; reflexivity | unfold KTIME_MAX; cbn; lia | discriminate].
Defined.
